(** * git-repo-loader: the rate-governed fetch pipeline of [GitHubRepoLoader]

    A shallow embedding of [src/index.ts].  JavaScript strings are sequences
    of UTF-16 code units, buffers are sequences of bytes; the remote API and
    the request scheduler are collaborators whose outcomes are read from a
    [Remote] record; the loader's only mutable field is [ignoredFiles]. *)

From stdpp Require Import base numbers list gmap strings.
From Stdlib Require Import ZArith Lia.

Local Open Scope Z_scope.

(** ** Text: UTF-16 strings, UTF-8 buffers *)

Module Text.

(** A JavaScript string is its sequence of UTF-16 code units; a [Buffer] is
    its sequence of bytes. *)
Abbreviation jsstring := (list Z).
Abbreviation buffer := (list Z).

(** An ASCII literal of the source as a JavaScript string. *)
Definition lit (s : string) : jsstring :=
  map (fun a => Z.of_N (Ascii.N_of_ascii a)) (String.list_ascii_of_string s).

Definition is_high_surrogate (u : Z) : bool := (0xD800 <=? u) && (u <=? 0xDBFF).
Definition is_low_surrogate (u : Z) : bool := (0xDC00 <=? u) && (u <=? 0xDFFF).

(** Unicode scalar values: the code points that are not surrogates. *)
Definition scalar (c : Z) : Prop :=
  0 <= c < 0xD800 \/ 0xE000 <= c < 0x110000.

Definition surrogate_pair (hi lo : Z) : Z :=
  0x10000 + Z.lor (Z.shiftl (hi - 0xD800) 10) (lo - 0xDC00).

(** The code points a string stands for when it is encoded: a high surrogate
    followed by a low one is one supplementary code point, any other
    surrogate is replaced by U+FFFD. *)
Fixpoint code_points (s : jsstring) : list Z :=
  match s with
  | [] => []
  | u :: rest =>
      if is_high_surrogate u then
        match rest with
        | v :: rest' =>
            if is_low_surrogate v then surrogate_pair u v :: code_points rest'
            else 0xFFFD :: code_points rest
        | [] => [0xFFFD]
        end
      else if is_low_surrogate u then 0xFFFD :: code_points rest
      else u :: code_points rest
  end.

(** The code units of one code point. *)
Definition code_units (c : Z) : jsstring :=
  if c <? 0x10000 then [c]
  else [0xD800 + Z.shiftr (c - 0x10000) 10;
        0xDC00 + Z.land (c - 0x10000) 0x3FF].

Definition of_code_points (cs : list Z) : jsstring := flat_map code_units cs.

(** No unpaired surrogate, every unit a 16-bit value. *)
Fixpoint well_formed (s : jsstring) : bool :=
  match s with
  | [] => true
  | u :: rest =>
      if is_high_surrogate u then
        match rest with
        | v :: rest' => is_low_surrogate v && well_formed rest'
        | [] => false
        end
      else negb (is_low_surrogate u) && (0 <=? u) && (u <? 0x10000)
           && well_formed rest
  end.

(** *** UTF-8 encoding, [Buffer.from(s, "utf-8")] *)

Definition utf8_encode_cp (c : Z) : buffer :=
  if c <? 0x80 then [c]
  else if c <? 0x800 then
    [Z.lor 0xC0 (Z.shiftr c 6); Z.lor 0x80 (Z.land c 0x3F)]
  else if c <? 0x10000 then
    [Z.lor 0xE0 (Z.shiftr c 12);
     Z.lor 0x80 (Z.land (Z.shiftr c 6) 0x3F);
     Z.lor 0x80 (Z.land c 0x3F)]
  else
    [Z.lor 0xF0 (Z.shiftr c 18);
     Z.lor 0x80 (Z.land (Z.shiftr c 12) 0x3F);
     Z.lor 0x80 (Z.land (Z.shiftr c 6) 0x3F);
     Z.lor 0x80 (Z.land c 0x3F)].

Definition utf8_encode (s : jsstring) : buffer :=
  flat_map utf8_encode_cp (code_points s).

(** *** UTF-8 decoding, [buf.toString("utf-8")]

    The decoder is the byte-at-a-time machine of the Encoding Standard run
    in replacement mode: an ill-formed sequence yields U+FFFD and the byte
    that broke it is read again as a lead byte.  A byte-order mark is kept. *)

Record utf8_state := Utf8State {
  u8_cp : Z;
  u8_needed : nat;
  u8_lower : Z;
  u8_upper : Z
}.

Definition u8_init : utf8_state := Utf8State 0 0 0x80 0xBF.

Definition u8_lead (b : Z) : utf8_state * list Z :=
  if (0 <=? b) && (b <=? 0x7F) then (u8_init, [b])
  else if (0xC2 <=? b) && (b <=? 0xDF) then
    (Utf8State (Z.land b 0x1F) 1 0x80 0xBF, [])
  else if (0xE0 <=? b) && (b <=? 0xEF) then
    (Utf8State (Z.land b 0xF) 2
       (if b =? 0xE0 then 0xA0 else 0x80)
       (if b =? 0xED then 0x9F else 0xBF), [])
  else if (0xF0 <=? b) && (b <=? 0xF4) then
    (Utf8State (Z.land b 0x7) 3
       (if b =? 0xF0 then 0x90 else 0x80)
       (if b =? 0xF4 then 0x8F else 0xBF), [])
  else (u8_init, [0xFFFD]).

Definition u8_step (st : utf8_state) (b : Z) : utf8_state * list Z :=
  match u8_needed st with
  | O => u8_lead b
  | S n =>
      if (u8_lower st <=? b) && (b <=? u8_upper st) then
        let cp := Z.lor (Z.shiftl (u8_cp st) 6) (Z.land b 0x3F) in
        match n with
        | O => (u8_init, [cp])
        | S _ => (Utf8State cp n 0x80 0xBF, [])
        end
      else
        let '(st', out) := u8_lead b in (st', 0xFFFD :: out)
  end.

Fixpoint u8_run (st : utf8_state) (bytes : buffer) : list Z :=
  match bytes with
  | [] => match u8_needed st with O => [] | S _ => [0xFFFD] end
  | b :: bs => let '(st', out) := u8_step st b in out ++ u8_run st' bs
  end.

Definition utf8_decode_cps (bytes : buffer) : list Z := u8_run u8_init bytes.

Definition utf8_decode (bytes : buffer) : jsstring :=
  of_code_points (utf8_decode_cps bytes).

(** The invariant of the decoder between two bytes: the bounds of the next
    continuation byte and the range of the accumulated bits leave room only
    for scalar values. *)
Definition u8_inv (st : utf8_state) : Prop :=
  0x80 <= u8_lower st /\ u8_upper st <= 0xBF /\
  match u8_needed st with
  | 0%nat => True
  | 1%nat => 2 <= u8_cp st <= 0x35F \/ 0x380 <= u8_cp st <= 0x43FF
  | 2%nat =>
      (0 <= u8_cp st <= 15
       /\ (u8_cp st = 0 -> 0xA0 <= u8_lower st)
       /\ (u8_cp st = 13 -> u8_upper st <= 0x9F))
      \/ 0x10 <= u8_cp st <= 0x10F
  | 3%nat =>
      0 <= u8_cp st <= 4
      /\ (u8_cp st = 0 -> 0x90 <= u8_lower st)
      /\ (u8_cp st = 4 -> u8_upper st <= 0x8F)
  | _ => False
  end.

End Text.

(** ** The loader *)

Module Loader.
Import Text.

(** What a rejected promise carries: an [Error] built by the loader itself,
    or the failure of a remote request as the scheduler surfaced it. *)
Inductive exn :=
| Error (message : jsstring)
| RequestError (status : Z).

Record QuotaSnapshot := {
  remaining : Z;
  limit : Z;
  reset : Z
}.

(** An entry of the recursive tree listing. *)
Record TreeItem := {
  item_path : jsstring;
  item_type : jsstring
}.

Record FetchedFile := {
  path : jsstring;
  content : jsstring
}.

(** [OutputFormat]; [unsupported] stands for a run-time value outside the
    declared union, the one the [default] branch of [formatOutput] meets. *)
Inductive OutputFormat :=
| json
| string_
| buffer_
| unsupported (format : jsstring).

Inductive Output :=
| OJson (files : list FetchedFile)
| OString (s : jsstring)
| OBuffer (b : buffer).

(** The requests the loader sends through octokit. *)
Inductive Call :=
| rateLimit_get
| repos_getCommit (owner repo ref : jsstring)
| git_getTree (owner repo tree_sha : jsstring)
| repos_getContent (owner repo file : jsstring).

(** What a run does besides returning: requests handed to the scheduler,
    the [console.warn] of [loadGitignore], items yielded by the generator. *)
Inductive Event :=
| Issued (c : Call)
| Warned (message : jsstring)
| Yielded (o : Output).

(** One snapshot of the remote side, read through the scheduler: what each
    wrapped request settles to.  [getCommit] gives
    [commitData?.data?.commit?.tree?.sha]; [getContent] gives
    [response.data.content] when [response.data] has that key. *)
Record Remote := {
  rateLimit : exn + QuotaSnapshot;
  getCommit : jsstring -> jsstring -> jsstring -> exn + option jsstring;
  getTree : jsstring -> jsstring -> jsstring -> exn + list TreeItem;
  getContent : jsstring -> jsstring -> jsstring -> exn + option jsstring
}.

Record RateLimitConfig := {
  concurrency : Z;
  intervalMs : Z;
  requestsPerInterval : Z;
  retries : Z
}.

(** [Partial<RateLimitConfig>] *)
Record PartialRateLimitConfig := {
  opt_concurrency : option Z;
  opt_intervalMs : option Z;
  opt_requestsPerInterval : option Z;
  opt_retries : option Z
}.

(** The fields of a [GitHubRepoLoader] instance. *)
Record GitHubRepoLoader := {
  octokit : jsstring;
  rateLimitManager : RateLimitConfig;
  ignoredFiles : gset jsstring
}.

Definition constructor (authToken : jsstring)
    (options : option PartialRateLimitConfig) : GitHubRepoLoader :=
  let o := default (Build_PartialRateLimitConfig None None None None) options in
  {| octokit := authToken;
     rateLimitManager :=
       {| concurrency := default 1 (opt_concurrency o);
          intervalMs := default 1000 (opt_intervalMs o);
          requestsPerInterval := default 1 (opt_requestsPerInterval o);
          retries := default 3 (opt_retries o) |};
     ignoredFiles := ∅ |}.

(** *** Asynchronous methods

    A method reads the remote snapshot, threads the instance, and either
    returns or throws; the events are listed in program order. *)

Definition M (A : Type) : Type :=
  Remote -> GitHubRepoLoader -> (exn + A) * GitHubRepoLoader * list Event.

Definition ret {A} (a : A) : M A := fun _ this => (inr a, this, []).

Definition throw {A} (e : exn) : M A := fun _ this => (inl e, this, []).

Definition bind {A B} (m : M A) (k : A -> M B) : M B :=
  fun r this =>
    match m r this with
    | (inl e, this', ev) => (inl e, this', ev)
    | (inr a, this', ev) =>
        let '(res, this'', ev') := k a r this' in (res, this'', ev ++ ev')
    end.

#[global] Instance M_ret : MRet M := @ret.
#[global] Instance M_bind : MBind M := fun A B k m => bind m k.

(** The outcome of a promise, kept instead of thrown: what [try]/[catch]
    and [Promise.all] look at. *)
Definition settled {A} (m : M A) : M (exn + A) :=
  fun r this => let '(res, this', ev) := m r this in (inr res, this', ev).

Definition emit (e : Event) : M unit := fun _ this => (inr tt, this, [e]).

Definition set_ignoredFiles (s : gset jsstring) : M unit :=
  fun _ this =>
    (inr tt,
     {| octokit := octokit this;
        rateLimitManager := rateLimitManager this;
        ignoredFiles := s |},
     []).

Definition get_ignoredFiles : M (gset jsstring) :=
  fun _ this => (inr (ignoredFiles this), this, []).

(** A request handed to octokit: it is recorded and settles to what the
    snapshot holds. *)
Definition request {A} (c : Call) (answer : Remote -> exn + A) : M A :=
  fun r this => (answer r, this, [Issued c]).

(** [this.rateLimitManager.wrap(key, fn)()].  [RateLimitManager] comes from
    the package [safe-calls]: when the wrapped request starts and how often
    it is retried is the scheduler's business; the loader sees the settled
    outcome. *)
Definition wrapWithRateLimit {A} (key : jsstring) (fn : M A) : M A := fn.

Definition fetchRateLimit : M QuotaSnapshot :=
  response ← wrapWithRateLimit (lit "github") (request rateLimit_get rateLimit);
  mret response.

(** [str.split("\n")] *)
Fixpoint split_lines (s : jsstring) : list jsstring :=
  match s with
  | [] => [[]]
  | u :: rest =>
      if u =? 10 then [] :: split_lines rest
      else match split_lines rest with
           | line :: lines => (u :: line) :: lines
           | [] => [[u]]
           end
  end.

(** White space and line terminators, as [trim] strips them. *)
Definition is_white_space (u : Z) : bool :=
  ((0x09 <=? u) && (u <=? 0x0D)) || (u =? 0x20) || (u =? 0xA0)
  || (u =? 0x1680) || ((0x2000 <=? u) && (u <=? 0x200A))
  || (u =? 0x2028) || (u =? 0x2029) || (u =? 0x202F) || (u =? 0x205F)
  || (u =? 0x3000) || (u =? 0xFEFF).

Fixpoint trim_start (s : jsstring) : jsstring :=
  match s with
  | u :: rest => if is_white_space u then trim_start rest else s
  | [] => []
  end.

Definition trim (s : jsstring) : jsstring :=
  rev (trim_start (rev (trim_start s))).

(** [line && !line.startsWith("#")] *)
Definition is_pattern_line (line : jsstring) : bool :=
  match line with
  | [] => false
  | u :: _ => negb (u =? 35)
  end.

Definition parse_gitignore (gitignoreContent : jsstring) : gset jsstring :=
  list_to_set
    (List.filter is_pattern_line (map trim (split_lines gitignoreContent))).

Section Methods.

(** [Buffer.from(s, "base64")], the platform's base64 decoder. *)
Variable from_base64 : jsstring -> buffer.

Definition loadGitignore (owner repo : jsstring) : M unit :=
  attempt ← settled (
    response ← wrapWithRateLimit (lit "github")
      (request (repos_getContent owner repo (lit ".gitignore"))
         (fun r => getContent r owner repo (lit ".gitignore")));
    match response with
    | Some payload =>
        let gitignoreContent := utf8_decode (from_base64 payload) in
        set_ignoredFiles (parse_gitignore gitignoreContent)
    | None => mret tt
    end);
  match attempt with
  | inr _ => mret tt
  | inl _ => emit (Warned (lit "No .gitignore file found or error reading it"))
  end.

(** The predicate of the [filter] call in [getRepoFiles]. *)
Definition keep_item (filterFn : option (jsstring -> bool))
    (ignored : gset jsstring) (item : TreeItem) : bool :=
  bool_decide (item_type item = lit "blob")
  && match filterFn with
     | None => true
     | Some f => f (item_path item)
     end
  && negb (bool_decide (item_path item ∈ ignored)).

Definition getRepoFiles (owner repo branch : jsstring)
    (filterFn : option (jsstring -> bool)) : M (list TreeItem) :=
  commitData ← wrapWithRateLimit (lit "github")
    (request (repos_getCommit owner repo branch)
       (fun r => getCommit r owner repo branch));
  match commitData with
  | None | Some [] => throw (Error (lit "Tree SHA not found"))
  | Some treeSha =>
      treeData ← wrapWithRateLimit (lit "github")
        (request (git_getTree owner repo treeSha)
           (fun r => getTree r owner repo treeSha));
      ignored ← get_ignoredFiles;
      mret (List.filter (keep_item filterFn ignored) treeData)
  end.

Definition fetchFileContent (owner repo : jsstring) (file : TreeItem)
    (decodeContent : bool) : M (option FetchedFile) :=
  response ← wrapWithRateLimit (lit "github")
    (request (repos_getContent owner repo (item_path file))
       (fun r => getContent r owner repo (item_path file)));
  match response with
  | Some payload =>
      let content := from_base64 payload in
      let content :=
        if decodeContent then utf8_encode (utf8_decode content) else content in
      mret (Some {| path := item_path file; content := utf8_decode content |})
  | None => mret None
  end.

(** [`File: ${f.path}\nContent:\n${f.content}\n---\n`] *)
Definition render (f : FetchedFile) : jsstring :=
  lit "File: " ++ path f ++ [10] ++ lit "Content:" ++ [10]
  ++ content f ++ [10] ++ lit "---" ++ [10].

(** [parts.join(sep)] *)
Fixpoint join (sep : jsstring) (parts : list jsstring) : jsstring :=
  match parts with
  | [] => []
  | [p] => p
  | p :: rest => p ++ sep ++ join sep rest
  end.

Definition formatOutput (files : list FetchedFile) (format : OutputFormat)
    : exn + Output :=
  match format with
  | json => inr (OJson files)
  | string_ => inr (OString (join [10] (map render files)))
  | buffer_ => inr (OBuffer (utf8_encode (join [10] (map render files))))
  | unsupported name =>
      inl (Error (lit "Unsupported output format: " ++ name))
  end.

Definition lift {A} (res : exn + A) : M A := fun _ this => (res, this, []).

(** *** [Promise.all]

    Every element promise is created, in array order, before any of them is
    awaited.  They settle in an order the loader does not control:
    [order] lists the indices as they settle, and whatever it leaves out
    settles afterwards.  A fulfilment stores its value in the slot of its
    index; the first rejection rejects the aggregate. *)

Fixpoint start_all {A B} (f : A -> M B) (l : list A) : M (list (exn + B)) :=
  match l with
  | [] => mret []
  | a :: rest =>
      p ← settled (f a);
      ps ← start_all f rest;
      mret (p :: ps)
  end.

Fixpoint settle {A} (promises : list (exn + A)) (order : list nat)
    (slots : list (option A)) : exn + list (option A) :=
  match order with
  | [] => inr slots
  | i :: order' =>
      match promises !! i with
      | Some (inl e) => inl e
      | Some (inr v) => settle promises order' (<[i := Some v]> slots)
      | None => settle promises order' slots
      end
  end.

Definition promise_all {A} (order : list nat) (promises : list (exn + A))
    : exn + list A :=
  let n := length promises in
  match settle promises (order ++ seq 0 n) (replicate n None) with
  | inl e => inl e
  | inr slots => inr (omap id slots)
  end.

Definition QuotaExhaustedError : exn :=
  Error (lit "GitHub Rate limit exceeded. Please try again later.").

(** What [fetchRepoContent] does with the enumerated files: fetch them all
    at once, drop the absent results, format the rest.  [order] is the order
    in which the content fetches of this call settle. *)
Definition batch_files (owner repo : jsstring) (decodeContent : bool)
    (outputFormat : OutputFormat) (order : list nat) (files : list TreeItem)
    : M Output :=
  promises ← start_all
    (fun file => fetchFileContent owner repo file decodeContent) files;
  contents ← lift (promise_all order promises);
  lift (formatOutput (omap id contents) outputFormat).

Definition fetchRepoContent (owner repo branch : jsstring)
    (decodeContent ignoreGitIgnoreFiles : bool) (outputFormat : OutputFormat)
    (filterFn : option (jsstring -> bool)) (order : list nat) : M Output :=
  quota ← fetchRateLimit;
  if remaining quota =? 0 then throw QuotaExhaustedError
  else
    _ ← (if ignoreGitIgnoreFiles then loadGitignore owner repo else mret tt);
    files ← getRepoFiles owner repo branch filterFn;
    batch_files owner repo decodeContent outputFormat order files.

(** The [for ... of] loop of the generator. *)
Fixpoint stream_files (owner repo : jsstring) (decodeContent : bool)
    (outputFormat : OutputFormat) (files : list TreeItem) : M unit :=
  match files with
  | [] => mret tt
  | file :: rest =>
      content ← fetchFileContent owner repo file decodeContent;
      _ ← match content with
          | Some c =>
              chunk ← lift (formatOutput [c] outputFormat);
              emit (Yielded chunk)
          | None => mret tt
          end;
      stream_files owner repo decodeContent outputFormat rest
  end.

(** The body of the async generator, driven to its end. *)
Definition fetchRepoContentStream (owner repo branch : jsstring)
    (decodeContent ignoreGitIgnoreFiles : bool) (outputFormat : OutputFormat)
    (filterFn : option (jsstring -> bool)) : M unit :=
  quota ← fetchRateLimit;
  if remaining quota =? 0 then throw QuotaExhaustedError
  else
    _ ← (if ignoreGitIgnoreFiles then loadGitignore owner repo else mret tt);
    files ← getRepoFiles owner repo branch filterFn;
    stream_files owner repo decodeContent outputFormat files.

End Methods.

(** *** A base64 decoder

    The methods take the platform's decoder as a parameter.  To run them on
    concrete payloads: the decoder for both alphabets, which skips what is
    not a digit and stops at the padding. *)

Definition sextet (u : Z) : option Z :=
  if (65 <=? u) && (u <=? 90) then Some (u - 65)
  else if (97 <=? u) && (u <=? 122) then Some (u - 71)
  else if (48 <=? u) && (u <=? 57) then Some (u + 4)
  else if (u =? 43) || (u =? 45) then Some 62
  else if (u =? 47) || (u =? 95) then Some 63
  else None.

Fixpoint before_padding (s : jsstring) : jsstring :=
  match s with
  | [] => []
  | u :: rest => if u =? 61 then [] else u :: before_padding rest
  end.

Fixpoint sextets_to_bytes (l : list Z) : buffer :=
  match l with
  | a :: b :: c :: d :: rest =>
      [Z.lor (Z.shiftl a 2) (Z.shiftr b 4);
       Z.lor (Z.shiftl (Z.land b 0xF) 4) (Z.shiftr c 2);
       Z.lor (Z.shiftl (Z.land c 0x3) 6) d]
      ++ sextets_to_bytes rest
  | [a; b; c] =>
      [Z.lor (Z.shiftl a 2) (Z.shiftr b 4);
       Z.lor (Z.shiftl (Z.land b 0xF) 4) (Z.shiftr c 2)]
  | [a; b] => [Z.lor (Z.shiftl a 2) (Z.shiftr b 4)]
  | _ => []
  end.

Definition base64_decode (s : jsstring) : buffer :=
  sextets_to_bytes (omap sextet (before_padding s)).

(** *** Reading a run *)

Definition outcome {A} (run : (exn + A) * GitHubRepoLoader * list Event)
    : exn + A := run.1.1.

Definition instance_after {A} (run : (exn + A) * GitHubRepoLoader * list Event)
    : GitHubRepoLoader := run.1.2.

Definition events {A} (run : (exn + A) * GitHubRepoLoader * list Event)
    : list Event := run.2.

Definition calls (ev : list Event) : list Call :=
  omap (fun e => match e with Issued c => Some c | _ => None end) ev.

Definition yields (ev : list Event) : list Output :=
  omap (fun e => match e with Yielded o => Some o | _ => None end) ev.

(** The files of the items a consumer collected from the generator. *)
Definition collected_files (items : list Output) : list FetchedFile :=
  flat_map (fun o => match o with OJson fs => fs | _ => [] end) items.

(** *** Vocabulary of the statements *)

Section Vocabulary.

Variable from_base64 : jsstring -> buffer.

(** What [fetchFileContent] settles to, read off the snapshot; the request
    neither reads nor changes the instance. *)
Definition fetched (r : Remote) (owner repo : jsstring) (decodeContent : bool)
    (file : TreeItem) : exn + option FetchedFile :=
  outcome (fetchFileContent from_base64 owner repo file decodeContent r
             (constructor [] None)).

(** The content requests of a list of entries, in order. *)
Definition content_calls (owner repo : jsstring) (files : list TreeItem)
    : list Event :=
  map (fun file => Issued (repos_getContent owner repo (item_path file))) files.

(** The optional load of the exclusion file. *)
Definition load_step (owner repo : jsstring) (ignoreGitIgnoreFiles : bool)
    : M unit :=
  if ignoreGitIgnoreFiles then loadGitignore from_base64 owner repo
  else mret tt.

(** What both top-level methods do first: quota check, optional exclusion
    load, enumeration (lines 51 to 60 of [fetchRepoContent], 82 to 91 of
    [fetchRepoContentStream]). *)
Definition enumerate (owner repo branch : jsstring)
    (ignoreGitIgnoreFiles : bool) (filterFn : option (jsstring -> bool))
    : M (list TreeItem) :=
  quota ← fetchRateLimit;
  if remaining quota =? 0 then throw QuotaExhaustedError
  else
    _ ← load_step owner repo ignoreGitIgnoreFiles;
    getRepoFiles owner repo branch filterFn.

(** Whether the content response for an entry carries a payload. *)
Definition has_content (r : Remote) (owner repo : jsstring) (item : TreeItem)
    : bool :=
  match getContent r owner repo (item_path item) with
  | inr (Some _) => true
  | _ => false
  end.


Definition present_file (r : Remote) (owner repo : jsstring) (item : TreeItem)
    : option FetchedFile :=
  match getContent r owner repo (item_path item) with
  | inr (Some payload) =>
      Some {| path := item_path item;
              content := utf8_decode (from_base64 payload) |}
  | _ => None
  end.

End Vocabulary.

Section Slots.

Context {A : Type}.

Implicit Types (vs : list A) (slots : list (option A)).

(** The slots of [Promise.all] filled so far hold the values of their own
    indices. *)
Definition slots_agree vs slots : Prop :=
  length slots = length vs /\
  forall i x, slots !! i = Some (Some x) -> vs !! i = Some x.

Definition slot_filled slots (i : nat) : Prop :=
  exists x, slots !! i = Some (Some x).

End Slots.

End Loader.


(** ** A repository to run the loader on *)

Module Sample.
Import Text Loader.

Definition blob (p : string) : TreeItem :=
  {| item_path := lit p; item_type := lit "blob" |}.

Definition tree (p : string) : TreeItem :=
  {| item_path := lit p; item_type := lit "tree" |}.

Definition quota_left (n : Z) : QuotaSnapshot :=
  {| remaining := n; limit := 5000; reset := 1700000000 |}.

(** A repository with [a.txt] (content "A"), [b.txt] (content "B"), a
    directory [secret] holding [key.pem] (content "hi"), and an entry
    [vendor/lib] listed as a blob whose content response carries no
    payload.  Its
    [.gitignore], when it has one, is the line [a.txt]. *)
Definition sample_tree : list TreeItem :=
  [blob "a.txt"; blob "b.txt"; tree "secret"; blob "secret/key.pem";
   blob "vendor/lib"].

Definition sample_content (with_gitignore : bool) (file : jsstring)
    : exn + option jsstring :=
  if decide (file = lit ".gitignore") then
    if with_gitignore then inr (Some (lit "YS50eHQK"))
    else inl (RequestError 404)
  else if decide (file = lit "a.txt") then inr (Some (lit "QQ=="))
  else if decide (file = lit "b.txt") then inr (Some (lit "Qg=="))
  else if decide (file = lit "secret/key.pem") then inr (Some (lit "aGk="))
  else if decide (file = lit "vendor/lib") then inr None
  else inl (RequestError 404).

Definition sample_remote (quota : Z) (with_gitignore : bool) : Remote :=
  {| rateLimit := inr (quota_left quota);
     getCommit := fun _ _ _ => inr (Some (lit "4b825dc"));
     getTree := fun _ _ _ => inr sample_tree;
     getContent := fun _ _ file => sample_content with_gitignore file |}.

Definition fresh : GitHubRepoLoader := constructor (lit "token") None.

Definition file_a : FetchedFile := {| path := lit "a.txt"; content := lit "A" |}.
Definition file_b : FetchedFile := {| path := lit "b.txt"; content := lit "B" |}.
Definition file_key : FetchedFile :=
  {| path := lit "secret/key.pem"; content := lit "hi" |}.

(** The sample repository behind a remote on which single requests fail:
    [commit] and [listing] are what the two enumeration requests settle
    to. *)
Definition failing_remote (commit : exn + option jsstring)
    (listing : exn + list TreeItem) : Remote :=
  {| rateLimit := inr (quota_left 10);
     getCommit := fun _ _ _ => commit;
     getTree := fun _ _ _ => listing;
     getContent := fun _ _ file => sample_content true file |}.

(** The sample repository with one more blob, [gone.txt], whose content
    request is rejected with status 404, and with [b.txt] rejected with
    status 500. *)
Definition flaky_remote : Remote :=
  {| rateLimit := inr (quota_left 10);
     getCommit := fun _ _ _ => inr (Some (lit "4b825dc"));
     getTree := fun _ _ _ =>
       inr [blob "secret/key.pem"; blob "gone.txt"; blob "b.txt"];
     getContent := fun _ _ file =>
       if decide (file = lit "b.txt") then inl (RequestError 500)
       else sample_content false file |}.

End Sample.

(** ** Proof automation *)

Module Tactics.
Import Loader.

(** Division and remainder by constants, then linear arithmetic. *)
Ltac arith := Z.div_mod_to_equations; lia.

(** Settle the comparisons of a goal that arithmetic decides. *)
Ltac decide_tests :=
  repeat match goal with
  | |- context [?a <=? ?b] =>
      first [ rewrite (proj2 (Z.leb_le a b)) by arith
            | rewrite (proj2 (Z.leb_gt a b)) by arith ]
  | |- context [?a <? ?b] =>
      first [ rewrite (proj2 (Z.ltb_lt a b)) by arith
            | rewrite (proj2 (Z.ltb_ge a b)) by arith ]
  | |- context [?a =? ?b] =>
      first [ rewrite (proj2 (Z.eqb_eq a b)) by arith
            | rewrite (proj2 (Z.eqb_neq a b)) by arith ]
  end.

(** Unfold the plumbing of [M]. *)
Ltac unfold_M :=
  unfold mbind, M_bind, mret, M_ret, bind, ret, throw, lift, emit, request,
    wrapWithRateLimit, settled, set_ignoredFiles, get_ignoredFiles in *.

End Tactics.

(** ** Facts about the text layer *)

Module TextFacts.
Import Text Tactics.

(** *** Bit operations as arithmetic *)

Lemma land_ones_mod (a k : Z) : 0 <= k -> Z.land a (2 ^ k - 1) = a mod 2 ^ k.
Proof.
  intros Hk. rewrite <- Z.land_ones by exact Hk.
  now rewrite Z.ones_equiv, <- Z.sub_1_r.
Qed.

Lemma lor_disjoint (k hi lo : Z) :
  0 <= k -> 0 <= lo < 2 ^ k -> Z.lor (hi * 2 ^ k) lo = hi * 2 ^ k + lo.
Proof.
  intros Hk Hlo. symmetry. apply Z.add_nocarry_lor.
  apply Z.bits_inj'. intros n Hn.
  rewrite Z.land_spec, Z.bits_0.
  destruct (Z.lt_ge_cases n k) as [Hlt | Hge].
  - rewrite Z.mul_pow2_bits_low by lia. reflexivity.
  - destruct (Z.eq_dec lo 0) as [-> | Hne].
    + rewrite Z.bits_0. apply andb_false_r.
    + rewrite (Z.bits_above_log2 lo n); [apply andb_false_r | lia |].
      pose proof (Z.pow_le_mono_r 2 k n ltac:(lia) Hge).
      apply Z.log2_lt_pow2; lia.
Qed.

Lemma land_3F a : Z.land a 0x3F = a mod 64.
Proof. exact (land_ones_mod a 6 ltac:(lia)). Qed.
Lemma land_1F a : Z.land a 0x1F = a mod 32.
Proof. exact (land_ones_mod a 5 ltac:(lia)). Qed.
Lemma land_0F a : Z.land a 0xF = a mod 16.
Proof. exact (land_ones_mod a 4 ltac:(lia)). Qed.
Lemma land_07 a : Z.land a 0x7 = a mod 8.
Proof. exact (land_ones_mod a 3 ltac:(lia)). Qed.
Lemma land_3FF a : Z.land a 0x3FF = a mod 1024.
Proof. exact (land_ones_mod a 10 ltac:(lia)). Qed.

Lemma shiftr_6 a : Z.shiftr a 6 = a / 64.
Proof. exact (Z.shiftr_div_pow2 a 6 ltac:(lia)). Qed.
Lemma shiftr_10 a : Z.shiftr a 10 = a / 1024.
Proof. exact (Z.shiftr_div_pow2 a 10 ltac:(lia)). Qed.
Lemma shiftr_12 a : Z.shiftr a 12 = a / 4096.
Proof. exact (Z.shiftr_div_pow2 a 12 ltac:(lia)). Qed.
Lemma shiftr_18 a : Z.shiftr a 18 = a / 262144.
Proof. exact (Z.shiftr_div_pow2 a 18 ltac:(lia)). Qed.
Lemma shiftl_6 a : Z.shiftl a 6 = a * 64.
Proof. exact (Z.shiftl_mul_pow2 a 6 ltac:(lia)). Qed.
Lemma shiftl_10 a : Z.shiftl a 10 = a * 1024.
Proof. exact (Z.shiftl_mul_pow2 a 10 ltac:(lia)). Qed.

Lemma lor_80 x : 0 <= x < 64 -> Z.lor 0x80 x = 0x80 + x.
Proof. exact (lor_disjoint 6 2 x ltac:(lia)). Qed.
Lemma lor_C0 x : 0 <= x < 32 -> Z.lor 0xC0 x = 0xC0 + x.
Proof. exact (lor_disjoint 5 6 x ltac:(lia)). Qed.
Lemma lor_E0 x : 0 <= x < 16 -> Z.lor 0xE0 x = 0xE0 + x.
Proof. exact (lor_disjoint 4 14 x ltac:(lia)). Qed.
Lemma lor_F0 x : 0 <= x < 8 -> Z.lor 0xF0 x = 0xF0 + x.
Proof. exact (lor_disjoint 3 30 x ltac:(lia)). Qed.
Lemma lor_shl6 a x : 0 <= x < 64 -> Z.lor (a * 64) x = a * 64 + x.
Proof. exact (lor_disjoint 6 a x ltac:(lia)). Qed.
Lemma lor_shl10 a x : 0 <= x < 1024 -> Z.lor (a * 1024) x = a * 1024 + x.
Proof. exact (lor_disjoint 10 a x ltac:(lia)). Qed.




(** *** The steps of the decoder *)

Lemma lead_ascii b : 0 <= b <= 0x7F -> u8_lead b = (u8_init, [b]).
Proof. intros H. unfold u8_lead. now decide_tests. Qed.

Lemma lead_2 b :
  0xC2 <= b <= 0xDF -> u8_lead b = (Utf8State (b - 0xC0) 1 0x80 0xBF, []).
Proof.
  intros H. unfold u8_lead. decide_tests. cbn [andb].
  rewrite land_1F. do 2 f_equal. f_equal. arith.
Qed.

Lemma lead_3 b :
  0xE0 <= b <= 0xEF ->
  u8_lead b =
    (Utf8State (b - 0xE0) 2 (if b =? 0xE0 then 0xA0 else 0x80)
       (if b =? 0xED then 0x9F else 0xBF), []).
Proof.
  intros H. unfold u8_lead.
  rewrite (proj2 (Z.leb_gt b 0x7F)), (proj2 (Z.leb_gt b 0xDF)),
    (proj2 (Z.leb_le 0xE0 b)), (proj2 (Z.leb_le b 0xEF)) by lia.
  rewrite !andb_false_r. cbn [andb].
  rewrite land_0F. do 2 f_equal. f_equal. arith.
Qed.

Lemma lead_4 b :
  0xF0 <= b <= 0xF4 ->
  u8_lead b =
    (Utf8State (b - 0xF0) 3 (if b =? 0xF0 then 0x90 else 0x80)
       (if b =? 0xF4 then 0x8F else 0xBF), []).
Proof.
  intros H. unfold u8_lead.
  rewrite (proj2 (Z.leb_gt b 0x7F)), (proj2 (Z.leb_gt b 0xDF)),
    (proj2 (Z.leb_gt b 0xEF)),
    (proj2 (Z.leb_le 0xF0 b)), (proj2 (Z.leb_le b 0xF4)) by lia.
  rewrite !andb_false_r. cbn [andb].
  rewrite land_07. do 2 f_equal. f_equal. arith.
Qed.

Lemma lead_invalid b :
  b < 0 \/ 0x7F < b < 0xC2 \/ 0xF4 < b -> u8_lead b = (u8_init, [0xFFFD]).
Proof.
  intros H. unfold u8_lead.
  destruct H as [H | [H | H]]; decide_tests;
    rewrite ?andb_false_r; reflexivity.
Qed.

Lemma step_continue st b n :
  u8_needed st = S n ->
  u8_lower st <= b <= u8_upper st -> 0x80 <= b <= 0xBF ->
  u8_step st b =
    match n with
    | O => (u8_init, [u8_cp st * 64 + (b - 0x80)])
    | S _ => (Utf8State (u8_cp st * 64 + (b - 0x80)) n 0x80 0xBF, [])
    end.
Proof.
  intros Hn Hr Hb. unfold u8_step. rewrite Hn.
  rewrite (proj2 (Z.leb_le _ _) (proj1 Hr)), (proj2 (Z.leb_le _ _) (proj2 Hr)).
  cbn [andb].
  rewrite shiftl_6, land_3F, lor_shl6 by arith.
  replace (b mod 64) with (b - 0x80) by arith.
  reflexivity.
Qed.

Lemma step_break st b n :
  u8_needed st = S n ->
  b < u8_lower st \/ u8_upper st < b ->
  u8_step st b = (let '(st', out) := u8_lead b in (st', 0xFFFD :: out)).
Proof.
  intros Hn Hr. unfold u8_step. rewrite Hn.
  destruct Hr as [Hr | Hr].
  - now rewrite (proj2 (Z.leb_gt _ _) Hr).
  - now rewrite (proj2 (Z.leb_gt _ _) Hr), andb_false_r.
Qed.

(** *** Decoding an encoded code point *)

Lemma utf8_encode_cp_arith c :
  0 <= c < 0x110000 ->
  utf8_encode_cp c =
    if c <? 0x80 then [c]
    else if c <? 0x800 then [0xC0 + c / 64; 0x80 + c mod 64]
    else if c <? 0x10000 then
      [0xE0 + c / 4096; 0x80 + (c / 64) mod 64; 0x80 + c mod 64]
    else
      [0xF0 + c / 262144; 0x80 + (c / 4096) mod 64;
       0x80 + (c / 64) mod 64; 0x80 + c mod 64].
Proof.
  intros Hc. unfold utf8_encode_cp.
  rewrite !shiftr_6, !shiftr_12, !shiftr_18, !land_3F.
  rewrite !lor_80 by arith.
  destruct (Z.ltb_spec c 0x80); [reflexivity |].
  destruct (Z.ltb_spec c 0x800); [now rewrite lor_C0 by arith |].
  destruct (Z.ltb_spec c 0x10000); [now rewrite lor_E0 by arith |].
  now rewrite lor_F0 by arith.
Qed.

Lemma u8_run_cons st b bytes :
  u8_run st (b :: bytes) = (u8_step st b).2 ++ u8_run (u8_step st b).1 bytes.
Proof. cbn [u8_run]. now destruct (u8_step st b). Qed.

Lemma u8_step_init b : u8_step u8_init b = u8_lead b.
Proof. reflexivity. Qed.

Lemma u8_run_encode c rest :
  scalar c ->
  u8_run u8_init (utf8_encode_cp c ++ rest) = c :: u8_run u8_init rest.
Proof.
  intros Hc. rewrite utf8_encode_cp_arith by (unfold scalar in Hc; lia).
  unfold scalar in Hc.
  destruct (Z.ltb_spec c 0x80) as [H1 | H1].
  { cbn [app]. rewrite u8_run_cons, u8_step_init, lead_ascii by lia.
    reflexivity. }
  destruct (Z.ltb_spec c 0x800) as [H2 | H2].
  { cbn [app]. rewrite u8_run_cons, u8_step_init, lead_2 by arith.
    cbn [fst snd app].
    rewrite u8_run_cons, (step_continue _ _ 0%nat)
      by (cbn [u8_needed u8_lower u8_upper]; first [reflexivity | arith]).
    cbn [fst snd app u8_cp]. f_equal. arith. }
  destruct (Z.ltb_spec c 0x10000) as [H3 | H3].
  { cbn [app]. rewrite u8_run_cons, u8_step_init, lead_3 by arith.
    cbn [fst snd app].
    rewrite u8_run_cons, (step_continue _ _ 1%nat);
      cbn [u8_needed u8_lower u8_upper]; [| reflexivity | | arith].
    2:{ assert (Hcase : c < 0x1000 \/ 0x1000 <= c < 0xD000
                        \/ 0xD000 <= c < 0xD800 \/ 0xE000 <= c) by lia.
        destruct Hcase as [Hk | [Hk | [Hk | Hk]]]; decide_tests; arith. }
    cbn [fst snd app].
    rewrite u8_run_cons, (step_continue _ _ 0%nat)
      by (cbn [u8_needed u8_lower u8_upper]; first [reflexivity | arith]).
    cbn [fst snd app u8_cp]. f_equal. arith. }
  cbn [app]. rewrite u8_run_cons, u8_step_init, lead_4 by arith.
  cbn [fst snd app].
  rewrite u8_run_cons, (step_continue _ _ 2%nat);
    cbn [u8_needed u8_lower u8_upper]; [| reflexivity | | arith].
  2:{ assert (Hcase : c < 0x40000 \/ 0x40000 <= c < 0x100000
                      \/ 0x100000 <= c) by lia.
      destruct Hcase as [Hk | [Hk | Hk]]; decide_tests; arith. }
  cbn [fst snd app].
  rewrite u8_run_cons, (step_continue _ _ 1%nat)
    by (cbn [u8_needed u8_lower u8_upper]; first [reflexivity | arith]).
  cbn [fst snd app].
  rewrite u8_run_cons, (step_continue _ _ 0%nat)
    by (cbn [u8_needed u8_lower u8_upper]; first [reflexivity | arith]).
  cbn [fst snd app u8_cp]. f_equal. arith.
Qed.

Lemma utf8_decode_cps_encode cs :
  Forall scalar cs -> utf8_decode_cps (flat_map utf8_encode_cp cs) = cs.
Proof.
  unfold utf8_decode_cps. induction 1 as [| c cs Hc _ IH]; [reflexivity |].
  cbn [flat_map]. rewrite u8_run_encode by exact Hc. now rewrite IH.
Qed.

(** *** What the decoder emits *)

Lemma u8_inv_init : u8_inv u8_init.
Proof. unfold u8_inv, u8_init; cbn. lia. Qed.

Lemma scalar_replacement : scalar 0xFFFD.
Proof. unfold scalar. lia. Qed.

Lemma u8_lead_inv b : u8_inv (u8_lead b).1 /\ Forall scalar (u8_lead b).2.
Proof.
  assert (Hcase : 0 <= b <= 0x7F \/ 0xC2 <= b <= 0xDF \/ 0xE0 <= b <= 0xEF
                  \/ 0xF0 <= b <= 0xF4
                  \/ (b < 0 \/ 0x7F < b < 0xC2 \/ 0xF4 < b)) by lia.
  destruct Hcase as [H | [H | [H | [H | H]]]].
  - rewrite lead_ascii by exact H. split; [apply u8_inv_init |].
    constructor; [unfold scalar; lia | constructor].
  - rewrite lead_2 by exact H. split; [| constructor].
    unfold u8_inv; cbn. lia.
  - rewrite lead_3 by exact H. split; [| constructor].
    unfold u8_inv; cbn [fst u8_lower u8_upper u8_needed u8_cp].
    destruct (Z.eqb_spec b 0xE0), (Z.eqb_spec b 0xED); lia.
  - rewrite lead_4 by exact H. split; [| constructor].
    unfold u8_inv; cbn [fst u8_lower u8_upper u8_needed u8_cp].
    destruct (Z.eqb_spec b 0xF0), (Z.eqb_spec b 0xF4); lia.
  - rewrite lead_invalid by exact H. split; [apply u8_inv_init |].
    constructor; [apply scalar_replacement | constructor].
Qed.

Lemma u8_step_inv st b :
  u8_inv st -> u8_inv (u8_step st b).1 /\ Forall scalar (u8_step st b).2.
Proof.
  intros (Hlo & Hhi & Hst).
  destruct (u8_needed st) as [| n] eqn:Hn.
  { unfold u8_step. rewrite Hn. apply u8_lead_inv. }
  destruct (Z_lt_ge_dec b (u8_lower st)) as [Hb1 | Hb1].
  { rewrite (step_break _ _ n) by auto.
    destruct (u8_lead_inv b) as [Hi Hs]. destruct (u8_lead b) as [st' out].
    cbn [fst snd] in *. split; [exact Hi |].
    constructor; [apply scalar_replacement | exact Hs]. }
  destruct (Z_lt_ge_dec (u8_upper st) b) as [Hb2 | Hb2].
  { rewrite (step_break _ _ n) by auto.
    destruct (u8_lead_inv b) as [Hi Hs]. destruct (u8_lead b) as [st' out].
    cbn [fst snd] in *. split; [exact Hi |].
    constructor; [apply scalar_replacement | exact Hs]. }
  rewrite (step_continue _ _ n) by lia.
  destruct n as [| [| [| n]]]; try contradiction.
  - split; [apply u8_inv_init |].
    constructor; [unfold scalar; lia | constructor].
  - split; [| constructor].
    unfold u8_inv; cbn [fst u8_lower u8_upper u8_needed u8_cp]. lia.
  - split; [| constructor].
    unfold u8_inv; cbn [fst u8_lower u8_upper u8_needed u8_cp]. lia.
Qed.

Lemma u8_run_scalar st bytes : u8_inv st -> Forall scalar (u8_run st bytes).
Proof.
  revert st. induction bytes as [| b bytes IH]; intros st Hst.
  - cbn. destruct (u8_needed st); constructor;
      [apply scalar_replacement | constructor].
  - rewrite u8_run_cons. destruct (u8_step_inv st b Hst) as [Hi Hs].
    apply Forall_app. split; [exact Hs | now apply IH].
Qed.

Lemma utf8_decode_cps_scalar bytes : Forall scalar (utf8_decode_cps bytes).
Proof. apply u8_run_scalar, u8_inv_init. Qed.

(** *** Code units and code points *)

Lemma code_points_units c rest :
  scalar c -> code_points (code_units c ++ rest) = c :: code_points rest.
Proof.
  intros Hc. unfold scalar in Hc. unfold code_units.
  destruct (Z.ltb_spec c 0x10000) as [Hlt | Hge].
  - cbn [app code_points]. unfold is_high_surrogate, is_low_surrogate.
    destruct Hc as [Hc | Hc]; decide_tests; rewrite ?andb_false_r;
      reflexivity.
  - rewrite shiftr_10, land_3FF. cbn [app code_points].
    unfold is_high_surrogate, is_low_surrogate, surrogate_pair.
    decide_tests. cbn [andb].
    rewrite shiftl_10, lor_shl10 by arith. f_equal. arith.
Qed.

Lemma code_points_of_code_points cs :
  Forall scalar cs -> code_points (of_code_points cs) = cs.
Proof.
  unfold of_code_points. induction 1 as [| c cs Hc _ IH]; [reflexivity |].
  cbn [flat_map]. rewrite code_points_units by exact Hc. now rewrite IH.
Qed.

Lemma well_formed_units c rest :
  scalar c -> well_formed (code_units c ++ rest) = well_formed rest.
Proof.
  intros Hc. unfold scalar in Hc. unfold code_units.
  destruct (Z.ltb_spec c 0x10000) as [Hlt | Hge].
  - cbn [app well_formed]. unfold is_high_surrogate, is_low_surrogate.
    destruct Hc as [Hc | Hc]; decide_tests; rewrite ?andb_false_r;
      reflexivity.
  - rewrite shiftr_10, land_3FF. cbn [app well_formed].
    unfold is_high_surrogate, is_low_surrogate.
    decide_tests. reflexivity.
Qed.

Lemma well_formed_of_code_points cs :
  Forall scalar cs -> well_formed (of_code_points cs) = true.
Proof.
  unfold of_code_points. induction 1 as [| c cs Hc _ IH]; [reflexivity |].
  cbn [flat_map]. now rewrite well_formed_units.
Qed.

(** A well-formed string is the code units of its code points, and those
    are scalar values. *)
Lemma well_formed_code_points s :
  well_formed s = true ->
  Forall scalar (code_points s) /\ of_code_points (code_points s) = s.
Proof.
  remember (length s) as n eqn:Hn. revert s Hn.
  induction n as [n IH] using lt_wf_ind. intros s Hn Hwf.
  destruct s as [| u rest]; [split; [constructor | reflexivity] |].
  cbn [well_formed code_points] in *.
  destruct (is_high_surrogate u) eqn:Hhi.
  - destruct rest as [| v rest']; [discriminate |].
    apply andb_true_iff in Hwf as [Hlo Hwf]. rewrite Hlo.
    destruct (IH (length rest') ltac:(cbn in Hn; lia) rest' eq_refl Hwf)
      as [Hs Heq].
    unfold is_high_surrogate in Hhi. unfold is_low_surrogate in Hlo.
    apply andb_true_iff in Hhi as [Hh1 Hh2].
    apply andb_true_iff in Hlo as [Hl1 Hl2].
    apply Z.leb_le in Hh1, Hh2, Hl1, Hl2.
    assert (Hpair : surrogate_pair u v
                    = 0x10000 + (u - 0xD800) * 1024 + (v - 0xDC00)).
    { unfold surrogate_pair. rewrite shiftl_10, lor_shl10 by lia. lia. }
    split.
    + constructor; [| exact Hs]. rewrite Hpair. unfold scalar. lia.
    + unfold of_code_points in *. cbn [flat_map]. rewrite Heq, Hpair.
      unfold code_units. rewrite shiftr_10, land_3FF. decide_tests.
      cbn [app]. f_equal; [arith | f_equal; arith].
  - rewrite !andb_true_iff in Hwf. destruct Hwf as [[[Hlo H0] H1] Hwf].
    apply negb_true_iff in Hlo. rewrite Hlo.
    destruct (IH (length rest) ltac:(cbn in Hn; lia) rest eq_refl Hwf)
      as [Hs Heq].
    apply Z.leb_le in H0. apply Z.ltb_lt in H1.
    unfold is_high_surrogate in Hhi. unfold is_low_surrogate in Hlo.
    apply andb_false_iff in Hhi, Hlo.
    rewrite !Z.leb_gt in Hhi, Hlo.
    split.
    + constructor; [| exact Hs]. unfold scalar. lia.
    + unfold of_code_points in *. cbn [flat_map]. rewrite Heq.
      unfold code_units. now decide_tests.
Qed.

Lemma well_formed_app s t :
  well_formed s = true -> well_formed t = true -> well_formed (s ++ t) = true.
Proof.
  intros Hs Ht.
  destruct (well_formed_code_points s Hs) as [Fs Es].
  destruct (well_formed_code_points t Ht) as [Ft Et].
  rewrite <- Es, <- Et. unfold of_code_points. rewrite <- flat_map_app.
  apply well_formed_of_code_points, Forall_app. now split.
Qed.

(** *** Round trips *)

Lemma utf8_decode_well_formed bytes : well_formed (utf8_decode bytes) = true.
Proof. apply well_formed_of_code_points, utf8_decode_cps_scalar. Qed.

Lemma utf8_decode_encode s :
  well_formed s = true -> utf8_decode (utf8_encode s) = s.
Proof.
  intros Hs. destruct (well_formed_code_points s Hs) as [Hsc Heq].
  unfold utf8_decode, utf8_encode.
  now rewrite utf8_decode_cps_encode.
Qed.

Lemma utf8_decode_reencode bytes :
  utf8_decode (utf8_encode (utf8_decode bytes)) = utf8_decode bytes.
Proof. apply utf8_decode_encode, utf8_decode_well_formed. Qed.

Lemma well_formed_lit_example :
  well_formed (lit "File: ") = true /\ well_formed (lit "---") = true.
Proof. split; reflexivity. Qed.
End TextFacts.

(** ** Facts about the loader *)

Module LoaderFacts.
Import Text Loader Sample Tactics TextFacts.

Section Runs.

Variable from_base64 : jsstring -> buffer.

(** *** Single requests *)

Lemma fetchFileContent_run r this owner repo file decodeContent :
  fetchFileContent from_base64 owner repo file decodeContent r this =
    (fetched from_base64 r owner repo decodeContent file, this,
     [Issued (repos_getContent owner repo (item_path file))]).
Proof.
  unfold fetched, fetchFileContent, outcome. unfold_M.
  destruct (getContent r owner repo (item_path file)) as [e | [p |]];
    reflexivity.
Qed.

Lemma fetched_cases r owner repo decodeContent file :
  fetched from_base64 r owner repo decodeContent file =
    match getContent r owner repo (item_path file) with
    | inl e => inl e
    | inr None => inr None
    | inr (Some payload) =>
        inr (Some {| path := item_path file;
                     content := utf8_decode (from_base64 payload) |})
    end.
Proof.
  unfold fetched, fetchFileContent, outcome. unfold_M.
  destruct (getContent r owner repo (item_path file)) as [e | [p |]];
    try reflexivity.
  cbn. destruct decodeContent; [| reflexivity].
  now rewrite utf8_decode_reencode.
Qed.

Lemma loadGitignore_run r this owner repo :
  loadGitignore from_base64 owner repo r this =
    match getContent r owner repo (lit ".gitignore") with
    | inr (Some payload) =>
        (inr tt,
         {| octokit := octokit this;
            rateLimitManager := rateLimitManager this;
            ignoredFiles :=
              parse_gitignore (utf8_decode (from_base64 payload)) |},
         [Issued (repos_getContent owner repo (lit ".gitignore"))])
    | inr None =>
        (inr tt, this,
         [Issued (repos_getContent owner repo (lit ".gitignore"))])
    | inl _ =>
        (inr tt, this,
         [Issued (repos_getContent owner repo (lit ".gitignore"));
          Warned (lit "No .gitignore file found or error reading it")])
    end.
Proof.
  unfold loadGitignore. unfold_M.
  destruct (getContent r owner repo (lit ".gitignore")) as [e | [p |]];
    reflexivity.
Qed.

(** *** [Promise.all] *)

Lemma start_all_run r this owner repo decodeContent files :
  start_all (fun file => fetchFileContent from_base64 owner repo file
                           decodeContent) files r this =
    (inr (map (fetched from_base64 r owner repo decodeContent) files), this,
     map (fun file => Issued (repos_getContent owner repo (item_path file)))
       files).
Proof.
  induction files as [| file files IH]; [reflexivity |].
  cbn [start_all map]. unfold_M.
  rewrite fetchFileContent_run, IH. cbn [app]. now rewrite app_nil_r.
Qed.

End Runs.

Section PromiseAll.

Context {A : Type}.

Implicit Types (vs : list A) (slots : list (option A)) (order : list nat).

Lemma settle_fulfilled vs order : forall slots,
  slots_agree vs slots ->
  exists slots',
    settle (map inr vs : list (exn + A)) order slots = inr slots'
    /\ slots_agree vs slots'
    /\ (forall i, (i < length vs)%nat -> i ∈ order -> slot_filled slots' i)
    /\ (forall i, slot_filled slots i -> slot_filled slots' i).
Proof.
  induction order as [| i order IH]; intros slots Hag.
  - exists slots. cbn. repeat split; try apply Hag; auto.
    intros i _ Hi. inversion Hi.
  - cbn [settle]. rewrite list_lookup_fmap.
    destruct (vs !! i) as [v |] eqn:Hv; cbn [fmap option_fmap option_map].
    + assert (Hlt : (i < length slots)%nat).
      { destruct Hag as [Hlen _]. rewrite Hlen. now apply lookup_lt_Some in Hv. }
      assert (Hag' : slots_agree vs (<[i := Some v]> slots)).
      { destruct Hag as [Hlen Hval]. split; [now rewrite length_insert |].
        intros j x Hj. destruct (decide (i = j)) as [<- | Hne].
        - rewrite list_lookup_insert_eq in Hj by exact Hlt. congruence.
        - rewrite list_lookup_insert_ne in Hj by exact Hne. now apply Hval. }
      destruct (IH _ Hag') as (slots' & Hrun & Hag'' & Hin & Hkeep).
      exists slots'. repeat split; try apply Hag''; [exact Hrun | |].
      * intros j Hj Hmem. apply elem_of_cons in Hmem as [-> | Hmem].
        -- apply Hkeep. exists v. now apply list_lookup_insert_eq.
        -- now apply Hin.
      * intros j [x Hx]. apply Hkeep.
        destruct (decide (i = j)) as [<- | Hne].
        -- exists v. now apply list_lookup_insert_eq.
        -- exists x. now rewrite list_lookup_insert_ne.
    + destruct (IH _ Hag) as (slots' & Hrun & Hag' & Hin & Hkeep).
      exists slots'. repeat split; try apply Hag'; [exact Hrun | | exact Hkeep].
      intros j Hj Hmem. apply elem_of_cons in Hmem as [-> | Hmem].
      * apply lookup_lt_is_Some in Hj. rewrite Hv in Hj. now destruct Hj.
      * now apply Hin.
Qed.

Lemma promise_all_fulfilled order vs :
  promise_all order (map inr vs : list (exn + A)) = inr vs.
Proof.
  unfold promise_all. rewrite length_map.
  assert (Hag : slots_agree vs (replicate (length vs) None)).
  { split; [apply length_replicate |].
    intros i x Hi. apply lookup_replicate in Hi as [Hi _]. discriminate. }
  destruct (settle_fulfilled vs (order ++ seq 0 (length vs)) _ Hag)
    as (slots' & -> & [Hlen Hval] & Hin & _).
  f_equal.
  assert (Heq : slots' = map Some vs).
  { apply list_eq. intros i. rewrite list_lookup_fmap.
    destruct (vs !! i) as [v |] eqn:Hv; cbn.
    - assert (Hi : (i < length vs)%nat) by now apply lookup_lt_Some in Hv.
      destruct (Hin i Hi) as [x Hx].
      { apply elem_of_app. right. apply elem_of_seq. lia. }
      rewrite Hx. apply Hval in Hx. congruence.
    - apply lookup_ge_None. rewrite Hlen. now apply lookup_ge_None. }
  rewrite Heq. clear. induction vs as [| v vs IH]; [reflexivity |].
  cbn. now rewrite IH.
Qed.

Lemma settle_rejected (promises : list (exn + A)) order : forall slots,
  (exists i e, i ∈ order /\ promises !! i = Some (inl e)) ->
  exists e, settle promises order slots = inl e /\ inl e ∈ promises.
Proof.
  induction order as [| i order IH]; intros slots (j & e & Hj & He).
  - inversion Hj.
  - cbn [settle]. destruct (promises !! i) as [[e' | v] |] eqn:Hi.
    + exists e'. split; [reflexivity |]. now apply list_elem_of_lookup_2 in Hi.
    + apply IH. exists j, e. split; [| exact He].
      apply elem_of_cons in Hj as [-> | Hj]; [congruence | exact Hj].
    + apply IH. exists j, e. split; [| exact He].
      apply elem_of_cons in Hj as [-> | Hj]; [congruence | exact Hj].
Qed.

Lemma promise_all_rejected order (promises : list (exn + A)) e :
  inl e ∈ promises ->
  exists e', promise_all order promises = inl e' /\ inl e' ∈ promises.
Proof.
  intros He. apply list_elem_of_lookup in He as [i Hi].
  unfold promise_all.
  destruct (settle_rejected promises (order ++ seq 0 (length promises))
              (replicate (length promises) None)) as (e' & -> & He').
  { exists i, e. split; [| exact Hi]. apply elem_of_app. right.
    apply elem_of_seq. apply lookup_lt_Some in Hi. lia. }
  now exists e'.
Qed.

(** Either every promise is fulfilled or one of them is rejected. *)
Lemma fulfilled_or_rejected (promises : list (exn + A)) :
  (exists vs, promises = map inr vs) \/ (exists e, inl e ∈ promises).
Proof.
  induction promises as [| [e | v] ps IH].
  - left. now exists [].
  - right. exists e. apply list_elem_of_here.
  - destruct IH as [[vs ->] | [e He]].
    + left. now exists (v :: vs).
    + right. exists e. now apply list_elem_of_further.
Qed.

End PromiseAll.

Section Pipeline.

Variable from_base64 : jsstring -> buffer.

Lemma run_bind {A B} (m : M A) (k : A -> M B) r this :
  (m ≫= k) r this =
    match m r this with
    | (inl e, this', ev) => (inl e, this', ev)
    | (inr a, this', ev) =>
        let '(res, this'', ev') := k a r this' in (res, this'', ev ++ ev')
    end.
Proof. reflexivity. Qed.

Lemma yields_app ev ev' : yields (ev ++ ev') = yields ev ++ yields ev'.
Proof. apply omap_app. Qed.

Lemma calls_app ev ev' : calls (ev ++ ev') = calls ev ++ calls ev'.
Proof. apply omap_app. Qed.

(** *** The two ways to fetch the enumerated files *)

Lemma batch_files_fulfilled r this owner repo decodeContent fmt order files vs :
  map (fetched from_base64 r owner repo decodeContent) files = map inr vs ->
  batch_files from_base64 owner repo decodeContent fmt order files r this =
    (formatOutput (omap id vs) fmt, this, content_calls owner repo files).
Proof.
  intros Hvs. unfold batch_files. rewrite run_bind, start_all_run, Hvs.
  rewrite run_bind. unfold lift at 1. rewrite promise_all_fulfilled.
  unfold lift. cbn [app]. now rewrite !app_nil_r.
Qed.

Lemma batch_files_rejected r this owner repo decodeContent fmt order files e :
  inl e ∈ map (fetched from_base64 r owner repo decodeContent) files ->
  exists e',
    batch_files from_base64 owner repo decodeContent fmt order files r this =
      (inl e', this, content_calls owner repo files)
    /\ inl e' ∈ map (fetched from_base64 r owner repo decodeContent) files.
Proof.
  intros He. unfold batch_files. rewrite run_bind, start_all_run.
  destruct (promise_all_rejected order _ e He) as (e' & Hrun & He').
  exists e'. split; [| exact He'].
  rewrite run_bind. unfold lift at 1. rewrite Hrun.
  now rewrite app_nil_r.
Qed.

Lemma stream_files_fulfilled r this owner repo decodeContent files vs :
  map (fetched from_base64 r owner repo decodeContent) files = map inr vs ->
  let run := stream_files from_base64 owner repo decodeContent json files
               r this in
  outcome run = inr tt /\ instance_after run = this
  /\ yields (events run) = map (fun f => OJson [f]) (omap id vs)
  /\ calls (events run) =
       map (fun file => repos_getContent owner repo (item_path file)) files.
Proof.
  revert vs. induction files as [| file files IH]; intros vs Hvs.
  - destruct vs; [| discriminate]. now cbn.
  - destruct vs as [| v vs]; [discriminate |].
    cbn [map] in Hvs. injection Hvs as Hv Hvs.
    specialize (IH vs Hvs). cbn zeta in IH |- *.
    cbn [stream_files]. rewrite run_bind, fetchFileContent_run, Hv.
    rewrite run_bind.
    destruct (stream_files from_base64 owner repo decodeContent json files
                r this) as [[res this'] ev] eqn:Hrun.
    unfold outcome, instance_after, events in *. cbn [fst snd] in IH.
    destruct IH as (-> & -> & Hy & Hc).
    destruct v as [f |]; unfold_M; cbn [formatOutput]; rewrite Hrun;
      cbn [fst snd app]; repeat split.
    + change (OJson [f] :: yields ev
              = OJson [f] :: map (fun f => OJson [f]) (omap id vs)).
      now rewrite Hy.
    + change (repos_getContent owner repo (item_path file) :: calls ev
              = repos_getContent owner repo (item_path file)
                :: map (fun file => repos_getContent owner repo
                                      (item_path file)) files).
      now rewrite Hc.
    + change (yields ev = map (fun f => OJson [f]) (omap id vs)).
      exact Hy.
    + change (repos_getContent owner repo (item_path file) :: calls ev
              = repos_getContent owner repo (item_path file)
                :: map (fun file => repos_getContent owner repo
                                      (item_path file)) files).
      now rewrite Hc.
Qed.

Lemma stream_files_rejected r this owner repo decodeContent files e :
  inl e ∈ map (fetched from_base64 r owner repo decodeContent) files ->
  exists e',
    outcome (stream_files from_base64 owner repo decodeContent json files
               r this) = inl e'.
Proof.
  induction files as [| file files IH]; intros He.
  - inversion He.
  - cbn [stream_files]. rewrite run_bind, fetchFileContent_run.
    cbn [map] in He.
    destruct (fetched from_base64 r owner repo decodeContent file)
      as [e0 | v] eqn:Hf.
    { exists e0. reflexivity. }
    apply elem_of_cons in He as [He | He]; [discriminate |].
    destruct (IH He) as [e' He']. exists e'.
    rewrite run_bind.
    destruct (stream_files from_base64 owner repo decodeContent json files
                r this) as [[res this'] ev] eqn:Hrun.
    unfold outcome in *. cbn [fst] in He'. subst res.
    destruct v as [f |]; unfold_M; cbn [formatOutput]; rewrite Hrun;
      reflexivity.
Qed.

(** *** What both top-level methods do first *)

Lemma bind_assoc_run {A B C} (m : M A) (f : A -> M B) (g : B -> M C) r this :
  (m ≫= (fun a => f a ≫= g)) r this = ((m ≫= f) ≫= g) r this.
Proof.
  rewrite !run_bind.
  destruct (m r this) as [[[e | a] this1] ev1]; [reflexivity |].
  rewrite run_bind.
  destruct (f a r this1) as [[[e | b] this2] ev2]; [reflexivity |].
  destruct (g b r this2) as [[res this3] ev3].
  now rewrite app_assoc.
Qed.

Lemma fetchRepoContent_enumerate r this owner repo branch decodeContent
    ignoreGitIgnoreFiles fmt filterFn order :
  fetchRepoContent from_base64 owner repo branch decodeContent
    ignoreGitIgnoreFiles fmt filterFn order r this =
  (enumerate from_base64 owner repo branch ignoreGitIgnoreFiles filterFn
   ≫= batch_files from_base64 owner repo decodeContent fmt order) r this.
Proof.
  unfold fetchRepoContent, enumerate.
  rewrite <- bind_assoc_run. rewrite !(run_bind fetchRateLimit).
  destruct (fetchRateLimit r this) as [[[e | q] this1] ev1]; [reflexivity |].
  destruct (remaining q =? 0); [reflexivity |].
  now rewrite <- bind_assoc_run.
Qed.

Lemma fetchRepoContentStream_enumerate r this owner repo branch decodeContent
    ignoreGitIgnoreFiles fmt filterFn :
  fetchRepoContentStream from_base64 owner repo branch decodeContent
    ignoreGitIgnoreFiles fmt filterFn r this =
  (enumerate from_base64 owner repo branch ignoreGitIgnoreFiles filterFn
   ≫= stream_files from_base64 owner repo decodeContent fmt) r this.
Proof.
  unfold fetchRepoContentStream, enumerate.
  rewrite <- bind_assoc_run. rewrite !(run_bind fetchRateLimit).
  destruct (fetchRateLimit r this) as [[[e | q] this1] ev1]; [reflexivity |].
  destruct (remaining q =? 0); [reflexivity |].
  now rewrite <- bind_assoc_run.
Qed.

End Pipeline.

Section Enumeration.

Variable from_base64 : jsstring -> buffer.

Lemma getRepoFiles_run r this owner repo branch filterFn :
  getRepoFiles owner repo branch filterFn r this =
    match getCommit r owner repo branch with
    | inl e => (inl e, this, [Issued (repos_getCommit owner repo branch)])
    | inr None | inr (Some []) =>
        (inl (Error (lit "Tree SHA not found")), this,
         [Issued (repos_getCommit owner repo branch)])
    | inr (Some sha) =>
        (match getTree r owner repo sha with
         | inl e => inl e
         | inr listing =>
             inr (List.filter (keep_item filterFn (ignoredFiles this)) listing)
         end, this,
         [Issued (repos_getCommit owner repo branch);
          Issued (git_getTree owner repo sha)])
    end.
Proof.
  unfold getRepoFiles. unfold_M.
  destruct (getCommit r owner repo branch) as [e | [[| u sha] |]];
    try reflexivity.
  destruct (getTree r owner repo (u :: sha)); reflexivity.
Qed.

Lemma getRepoFiles_frame r this owner repo branch filterFn :
  instance_after (getRepoFiles owner repo branch filterFn r this) = this
  /\ yields (events (getRepoFiles owner repo branch filterFn r this)) = [].
Proof.
  rewrite getRepoFiles_run.
  destruct (getCommit r owner repo branch) as [e | [[| u sha] |]];
    split; reflexivity.
Qed.

(** The optional exclusion load never throws and yields nothing. *)
Lemma load_step_frame r this owner repo ignoreGitIgnoreFiles :
  outcome (load_step from_base64 owner repo ignoreGitIgnoreFiles r this)
  = inr tt
  /\ yields (events (load_step from_base64 owner repo ignoreGitIgnoreFiles
                       r this)) = [].
Proof.
  unfold load_step. destruct ignoreGitIgnoreFiles; [| split; reflexivity].
  rewrite loadGitignore_run.
  destruct (getContent r owner repo (lit ".gitignore")) as [e | [p |]];
    split; reflexivity.
Qed.

Lemma enumerate_run r this owner repo branch ignoreGitIgnoreFiles filterFn q :
  rateLimit r = inr q ->
  remaining q <> 0 ->
  let load := load_step from_base64 owner repo ignoreGitIgnoreFiles r this in
  let list := getRepoFiles owner repo branch filterFn r (instance_after load) in
  enumerate from_base64 owner repo branch ignoreGitIgnoreFiles filterFn r this
  = (outcome list, instance_after load,
     Issued rateLimit_get :: events load ++ events list).
Proof.
  intros Hq Hrem load list. unfold enumerate, fetchRateLimit.
  rewrite run_bind. unfold_M. rewrite Hq.
  apply Z.eqb_neq in Hrem. rewrite Hrem.
  destruct (load_step_frame r this owner repo ignoreGitIgnoreFiles)
    as [Hload _].
  fold load in Hload |- *.
  destruct load as [[res this1] ev1] eqn:Eload.
  unfold outcome in Hload. cbn [fst] in Hload. subst res.
  destruct (getRepoFiles_frame r this1 owner repo branch filterFn)
    as [Hinst _].
  unfold instance_after, outcome, events in *. cbn [fst snd] in *.
  subst list.
  destruct (getRepoFiles owner repo branch filterFn r this1)
    as [[res this2] ev2].
  cbn [fst snd] in *. subst this2. reflexivity.
Qed.

Lemma enumerate_no_yield r this owner repo branch ignoreGitIgnoreFiles
    filterFn :
  yields (events (enumerate from_base64 owner repo branch
                    ignoreGitIgnoreFiles filterFn r this)) = [].
Proof.
  destruct (rateLimit r) as [e | q] eqn:Hq.
  { unfold enumerate, fetchRateLimit. unfold_M. now rewrite Hq. }
  destruct (Z.eq_dec (remaining q) 0) as [H0 | H0].
  { unfold enumerate, fetchRateLimit. unfold_M. now rewrite Hq, H0. }
  rewrite (enumerate_run r this owner repo branch ignoreGitIgnoreFiles
             filterFn q Hq H0).
  unfold events at 1. cbn [snd].
  change (yields (events (load_step from_base64 owner repo
                            ignoreGitIgnoreFiles r this)
                  ++ events (getRepoFiles owner repo branch filterFn r
                       (instance_after
                          (load_step from_base64 owner repo
                             ignoreGitIgnoreFiles r this)))) = []).
  rewrite yields_app.
  rewrite (proj2 (load_step_frame r this owner repo ignoreGitIgnoreFiles)).
  now rewrite (proj2 (getRepoFiles_frame _ _ _ _ _ _)).
Qed.

Lemma collected_files_singletons fs :
  collected_files (map (fun f => OJson [f]) fs) = fs.
Proof.
  unfold collected_files. induction fs as [| f fs IH]; [reflexivity |].
  cbn [map flat_map app]. now rewrite IH.
Qed.

(** The two modes on the same enumerated files: the batch returns a
    collection exactly when the generator runs to its end, and then the
    items it yielded hold the files of that collection, in the same order. *)
Lemma stream_files_batch_files r this owner repo decodeContent order files out :
  outcome (batch_files from_base64 owner repo decodeContent json order files
             r this) = inr (OJson out)
  <->
  outcome (stream_files from_base64 owner repo decodeContent json files
             r this) = inr tt
  /\ collected_files
       (yields (events (stream_files from_base64 owner repo decodeContent
                          json files r this))) = out.
Proof.
  destruct (fulfilled_or_rejected
              (map (fetched from_base64 r owner repo decodeContent) files))
    as [[vs Hvs] | [e He]].
  - rewrite (batch_files_fulfilled from_base64 r this owner repo
               decodeContent json order files vs Hvs).
    destruct (stream_files_fulfilled from_base64 r this owner repo
                decodeContent files vs Hvs) as (Ho & _ & Hy & _).
    rewrite Ho, Hy, collected_files_singletons.
    unfold outcome. cbn [fst formatOutput].
    split; [intros [= <-]; auto | intros [_ <-]; reflexivity].
  - destruct (batch_files_rejected from_base64 r this owner repo
                decodeContent json order files e He) as (e1 & -> & _).
    destruct (stream_files_rejected from_base64 r this owner repo
                decodeContent files e He) as (e2 & ->).
    unfold outcome. cbn [fst].
    split; [discriminate | intros [? _]; discriminate].
Qed.

(** *** A second call on the instance a first call left behind *)

Lemma load_step_again r this owner repo ignoreGitIgnoreFiles :
  let load := load_step from_base64 owner repo ignoreGitIgnoreFiles r this in
  load_step from_base64 owner repo ignoreGitIgnoreFiles r (instance_after load)
  = (inr tt, instance_after load, events load).
Proof.
  unfold load_step. destruct ignoreGitIgnoreFiles; [| reflexivity].
  cbn zeta. rewrite !loadGitignore_run.
  destruct (getContent r owner repo (lit ".gitignore")) as [e | [p |]];
    reflexivity.
Qed.

Lemma enumerate_again r this owner repo branch ignoreGitIgnoreFiles filterFn :
  enumerate from_base64 owner repo branch ignoreGitIgnoreFiles filterFn r
    (instance_after
       (enumerate from_base64 owner repo branch ignoreGitIgnoreFiles
          filterFn r this))
  = enumerate from_base64 owner repo branch ignoreGitIgnoreFiles filterFn
      r this.
Proof.
  destruct (rateLimit r) as [e | q] eqn:Hq.
  { assert (E : enumerate from_base64 owner repo branch ignoreGitIgnoreFiles
                  filterFn r this = (inl e, this, [Issued rateLimit_get])).
    { unfold enumerate, fetchRateLimit. unfold_M. now rewrite Hq. }
    rewrite E. unfold instance_after. cbn [fst snd]. exact E. }
  destruct (Z.eq_dec (remaining q) 0) as [H0 | H0].
  { assert (E : enumerate from_base64 owner repo branch ignoreGitIgnoreFiles
                  filterFn r this
                = (inl QuotaExhaustedError, this, [Issued rateLimit_get])).
    { unfold enumerate, fetchRateLimit. unfold_M. now rewrite Hq, H0. }
    rewrite E. unfold instance_after. cbn [fst snd]. exact E. }
  rewrite (enumerate_run r this owner repo branch ignoreGitIgnoreFiles
             filterFn q Hq H0).
  unfold instance_after at 1. cbn [fst snd].
  rewrite (enumerate_run r _ owner repo branch ignoreGitIgnoreFiles
             filterFn q Hq H0).
  cbn zeta. rewrite load_step_again.
  unfold instance_after at 1 2, events at 1. cbn [fst snd]. reflexivity.
Qed.

Lemma batch_files_frame r this owner repo decodeContent fmt order files :
  instance_after (batch_files from_base64 owner repo decodeContent fmt order
                    files r this) = this.
Proof.
  destruct (fulfilled_or_rejected
              (map (fetched from_base64 r owner repo decodeContent) files))
    as [[vs Hvs] | [e He]].
  - now rewrite (batch_files_fulfilled from_base64 r this owner repo
                   decodeContent fmt order files vs Hvs).
  - destruct (batch_files_rejected from_base64 r this owner repo
                decodeContent fmt order files e He) as (e1 & -> & _).
    reflexivity.
Qed.

Lemma fetchRepoContent_instance r this owner repo branch decodeContent
    ignoreGitIgnoreFiles fmt filterFn order :
  instance_after (fetchRepoContent from_base64 owner repo branch decodeContent
                    ignoreGitIgnoreFiles fmt filterFn order r this)
  = instance_after (enumerate from_base64 owner repo branch
                      ignoreGitIgnoreFiles filterFn r this).
Proof.
  rewrite fetchRepoContent_enumerate, run_bind.
  destruct (enumerate from_base64 owner repo branch ignoreGitIgnoreFiles
              filterFn r this) as [[[e | files] this1] ev1]; [reflexivity |].
  pose proof (batch_files_frame r this1 owner repo decodeContent fmt order
                files) as Hf.
  destruct (batch_files from_base64 owner repo decodeContent fmt order files
              r this1) as [[res2 this2] ev2].
  exact Hf.
Qed.

Lemma fetchRepoContentStream_again r this owner repo branch decodeContent
    ignoreGitIgnoreFiles fmt filterFn order fmt' :
  fetchRepoContentStream from_base64 owner repo branch decodeContent
    ignoreGitIgnoreFiles fmt filterFn r
    (instance_after
       (fetchRepoContent from_base64 owner repo branch decodeContent
          ignoreGitIgnoreFiles fmt' filterFn order r this))
  = fetchRepoContentStream from_base64 owner repo branch decodeContent
      ignoreGitIgnoreFiles fmt filterFn r this.
Proof.
  rewrite fetchRepoContent_instance.
  rewrite !fetchRepoContentStream_enumerate, !run_bind.
  now rewrite enumerate_again.
Qed.

End Enumeration.

Section Present.

Variable from_base64 : jsstring -> buffer.

Lemma fetched_all_settled r owner repo decodeContent files :
  (forall item, item ∈ files ->
     exists c, getContent r owner repo (item_path item) = inr c) ->
  map (fetched from_base64 r owner repo decodeContent) files
  = map inr (map (present_file from_base64 r owner repo) files).
Proof.
  induction files as [| item files IH]; intros Hall; [reflexivity |].
  cbn [map]. rewrite IH.
  2:{ intros i Hi. apply Hall. now apply list_elem_of_further. }
  f_equal. rewrite fetched_cases. unfold present_file.
  destruct (Hall item (list_elem_of_here _ _)) as [c ->].
  now destruct c.
Qed.

Lemma omap_id_map {A B} (f : A -> option B) l : omap id (map f l) = omap f l.
Proof.
  induction l as [| a l IH]; [reflexivity |].
  cbn. rewrite IH. now destruct (f a).
Qed.


Lemma present_files_paths r owner repo files :
  map path (omap (present_file from_base64 r owner repo) files)
  = map item_path (List.filter (has_content r owner repo) files).
Proof.
  induction files as [| item files IH]; [reflexivity |].
  cbn [omap list_omap List.filter]. unfold present_file at 1, has_content at 1.
  destruct (getContent r owner repo (item_path item)) as [e | [p |]];
    cbn; now rewrite ?IH.
Qed.

End Present.

(** *** The formatter *)

Lemma well_formed_render f :
  well_formed (path f) = true -> well_formed (content f) = true ->
  well_formed (render f) = true.
Proof.
  intros Hp Hc. unfold render.
  repeat (apply well_formed_app; [first [assumption | reflexivity] |]).
  reflexivity.
Qed.

Lemma well_formed_join sep parts :
  well_formed sep = true ->
  Forall (fun p => well_formed p = true) parts ->
  well_formed (join sep parts) = true.
Proof.
  intros Hsep. induction 1 as [| p parts Hp Hparts IH]; [reflexivity |].
  cbn [join]. destruct parts as [| p' parts]; [exact Hp |].
  apply well_formed_app; [exact Hp |].
  apply well_formed_app; [exact Hsep | exact IH].
Qed.

(** X14.  Whatever bytes the payload decodes to, the content of a file
    [fetchFileContent] returns is well-formed UTF-16: it holds no unpaired
    surrogate (ill-formed input shows up as U+FFFD). *)
Lemma fetched_content_well_formed from_base64 r this owner repo file
    decodeContent f :
  outcome (fetchFileContent from_base64 owner repo file decodeContent r this)
  = inr (Some f) ->
  well_formed (content f) = true.
Proof.
  rewrite fetchFileContent_run. unfold outcome. cbn [fst].
  rewrite fetched_cases.
  destruct (getContent r owner repo (item_path file)) as [e | [p |]];
    intros [= <-]. apply utf8_decode_well_formed.
Qed.

(** *** The fallback of the exclusion load *)

(** [loadGitignore] never throws, and when the request fails or the response
    has no payload it leaves the instance as it found it. *)
Lemma loadGitignore_swallows from_base64 r this owner repo :
  outcome (loadGitignore from_base64 owner repo r this) = inr tt
  /\ (~ (exists payload,
           getContent r owner repo (lit ".gitignore") = inr (Some payload)) ->
      instance_after (loadGitignore from_base64 owner repo r this) = this).
Proof.
  rewrite loadGitignore_run.
  destruct (getContent r owner repo (lit ".gitignore")) as [e | [p |]];
    split; try reflexivity.
  intros Hno. destruct Hno. now exists p.
Qed.

(** X15.  A call whose exclusion load fails returns what the same call
    returns with the load switched off, and leaves the instance untouched:
    on an instance that holds no exclusions, that is the result without
    exclusions. *)
Lemma failed_load_on_empty_instance from_base64 r this owner repo branch
    decodeContent outputFormat filterFn order :
  ~ (exists payload,
       getContent r owner repo (lit ".gitignore") = inr (Some payload)) ->
  outcome (fetchRepoContent from_base64 owner repo branch decodeContent true
             outputFormat filterFn order r this)
  = outcome (fetchRepoContent from_base64 owner repo branch decodeContent
               false outputFormat filterFn order r this)
  /\ instance_after (fetchRepoContent from_base64 owner repo branch
                       decodeContent true outputFormat filterFn order r this)
     = this.
Proof.
  intros Hno.
  rewrite fetchRepoContent_instance, !fetchRepoContent_enumerate, !run_bind.
  destruct (rateLimit r) as [e | q] eqn:Hq.
  { unfold enumerate, fetchRateLimit. unfold_M. rewrite Hq.
    split; reflexivity. }
  destruct (Z.eq_dec (remaining q) 0) as [H0 | H0].
  { unfold enumerate, fetchRateLimit. unfold_M. rewrite Hq, H0.
    split; reflexivity. }
  rewrite !(enumerate_run from_base64 r this owner repo branch _ filterFn q
              Hq H0).
  cbn zeta.
  assert (Hload : load_step from_base64 owner repo true r this
                  = (inr tt, this,
                     events (loadGitignore from_base64 owner repo r this))).
  { unfold load_step.
    destruct (loadGitignore_swallows from_base64 r this owner repo)
      as [Ho Hi]. specialize (Hi Hno).
    destruct (loadGitignore from_base64 owner repo r this)
      as [[res this1] ev1].
    unfold outcome, instance_after, events in *. cbn [fst snd] in *.
    now subst. }
  assert (Hskip : load_step from_base64 owner repo false r this
                  = (inr tt, this, [])) by reflexivity.
  rewrite Hload, Hskip.
  unfold instance_after, outcome. cbn [fst snd].
  destruct (getRepoFiles owner repo branch filterFn r this)
    as [[[e | files] this2] ev2]; cbn [fst snd]; [split; reflexivity |].
  split; [| reflexivity].
  destruct (fulfilled_or_rejected
              (map (fetched from_base64 r owner repo decodeContent) files))
    as [[vs Hvs] | [e He]].
  - now rewrite !(batch_files_fulfilled from_base64 r _ owner repo
                    decodeContent outputFormat order files vs Hvs).
  - unfold batch_files. rewrite !run_bind, !start_all_run.
    unfold lift at 1 3.
    destruct (promise_all order
                (map (fetched from_base64 r owner repo decodeContent) files))
      as [e' | contents]; [reflexivity |].
    unfold lift. now destruct (formatOutput (omap id contents) outputFormat).
Qed.

(** *** The scheduler's configuration *)

(** The constructor hands the options to the scheduler as given, with the
    documented defaults for what is left out, and starts with no
    exclusions. *)
Lemma constructor_config authToken c i n t :
  rateLimitManager
    (constructor authToken
       (Some {| opt_concurrency := Some c; opt_intervalMs := Some i;
                opt_requestsPerInterval := Some n; opt_retries := t |}))
  = {| concurrency := c; intervalMs := i; requestsPerInterval := n;
       retries := default 3 t |}
  /\ rateLimitManager (constructor authToken None)
     = {| concurrency := 1; intervalMs := 1000; requestsPerInterval := 1;
          retries := 3 |}
  /\ ignoredFiles (constructor authToken None) = ∅.
Proof. repeat split. Qed.

(** *** The sample repository, run *)

Example sample_batch :
  outcome (fetchRepoContent base64_decode (lit "octo") (lit "demo")
             (lit "main") false true json None [2; 0; 1]%nat
             (sample_remote 10 true) fresh)
  = inr (OJson [file_b; file_key])
  /\ calls (events (fetchRepoContent base64_decode (lit "octo") (lit "demo")
                      (lit "main") false true json None [2; 0; 1]%nat
                      (sample_remote 10 true) fresh))
     = [rateLimit_get;
        repos_getContent (lit "octo") (lit "demo") (lit ".gitignore");
        repos_getCommit (lit "octo") (lit "demo") (lit "main");
        git_getTree (lit "octo") (lit "demo") (lit "4b825dc");
        repos_getContent (lit "octo") (lit "demo") (lit "b.txt");
        repos_getContent (lit "octo") (lit "demo") (lit "secret/key.pem");
        repos_getContent (lit "octo") (lit "demo") (lit "vendor/lib")].
Proof. split; vm_compute; reflexivity. Qed.

Example sample_stream :
  yields (events (fetchRepoContentStream base64_decode (lit "octo")
                    (lit "demo") (lit "main") false true json None
                    (sample_remote 10 true) fresh))
  = [OJson [file_b]; OJson [file_key]].
Proof. vm_compute. reflexivity. Qed.

Example sample_string :
  outcome (fetchRepoContent base64_decode (lit "octo") (lit "demo")
             (lit "main") true true string_ None []
             (sample_remote 10 true) fresh)
  = inr (OString (lit "File: b.txt" ++ [10] ++ lit "Content:" ++ [10]
                  ++ lit "B" ++ [10] ++ lit "---" ++ [10] ++ [10]
                  ++ lit "File: secret/key.pem" ++ [10] ++ lit "Content:"
                  ++ [10] ++ lit "hi" ++ [10] ++ lit "---" ++ [10])).
Proof. vm_compute. reflexivity. Qed.

(** A listing entry whose path holds an unpaired surrogate goes through the
    pipeline as any other. *)
Example sample_unpaired_surrogate :
  outcome (fetchRepoContent base64_decode (lit "octo") (lit "demo")
             (lit "main") false false json None []
             {| rateLimit := inr (quota_left 10);
                getCommit := fun _ _ _ => inr (Some (lit "4b825dc"));
                getTree := fun _ _ _ =>
                  inr [{| item_path := [0xD800]; item_type := lit "blob" |}];
                getContent := fun _ _ _ => inr (Some (lit "QQ==")) |}
             fresh)
  = inr (OJson [{| path := [0xD800]; content := lit "A" |}]).
Proof. vm_compute. reflexivity. Qed.

(** ** Properties of the specification *)

(** C1.  When the quota check reports [remaining = 0], both
    [fetchRepoContent] and [fetchRepoContentStream] fail with the
    quota-exhausted error, leave the instance as it was, and the only
    request issued is the quota check itself: no enumeration, no load of the
    exclusion file, no content fetch. *)
Theorem quota_exhausted_fails_fast from_base64 r this owner repo branch
    decodeContent ignoreGitIgnoreFiles outputFormat filterFn order q :
  rateLimit r = inr q ->
  remaining q = 0 ->
  fetchRepoContent from_base64 owner repo branch decodeContent
    ignoreGitIgnoreFiles outputFormat filterFn order r this
  = (inl QuotaExhaustedError, this, [Issued rateLimit_get])
  /\ fetchRepoContentStream from_base64 owner repo branch decodeContent
       ignoreGitIgnoreFiles outputFormat filterFn r this
     = (inl QuotaExhaustedError, this, [Issued rateLimit_get]).
Proof.
  intros Hq Hrem.
  unfold fetchRepoContent, fetchRepoContentStream, fetchRateLimit.
  unfold_M. rewrite Hq, Hrem. split; reflexivity.
Qed.

(** C1 on the sample repository with its quota used up. *)
Lemma quota_exhausted_fails_fast_witness :
  fetchRepoContent base64_decode (lit "octo") (lit "demo") (lit "main")
    false true json None [] (sample_remote 0 true) fresh
  = (inl QuotaExhaustedError, fresh, [Issued rateLimit_get])
  /\ fetchRepoContentStream base64_decode (lit "octo") (lit "demo")
       (lit "main") false true json None (sample_remote 0 true) fresh
     = (inl QuotaExhaustedError, fresh, [Issued rateLimit_get]).
Proof.
  apply (quota_exhausted_fails_fast base64_decode (sample_remote 0 true)
           fresh (lit "octo") (lit "demo") (lit "main") false true json None
           [] (quota_left 0)); reflexivity.
Defined.

(** C2.  Once the branch resolves to a tree and the listing arrives,
    [getRepoFiles] returns the listing filtered, in order: exactly the
    entries of type [blob] that pass the predicate (all of them when there
    is none) and whose path is not an element of the exclusion set.
    Membership is equality of paths: with the set [a.txt], [secret/] the
    entry [a.txt] is dropped and [secret/key.pem] is kept. *)
Theorem enumerator_filters_exactly r this owner repo branch filterFn sha
    listing :
  getCommit r owner repo branch = inr (Some sha) ->
  sha <> [] ->
  getTree r owner repo sha = inr listing ->
  let files := List.filter (keep_item filterFn (ignoredFiles this)) listing in
  outcome (getRepoFiles owner repo branch filterFn r this) = inr files
  /\ (forall item,
        item ∈ files <->
        item ∈ listing
        /\ item_type item = lit "blob"
        /\ match filterFn with
           | None => True
           | Some f => f (item_path item) = true
           end
        /\ item_path item ∉ ignoredFiles this)
  /\ (let exclusions : gset jsstring := {[lit "a.txt"; lit "secret/"]} in
      keep_item None exclusions (blob "a.txt") = false
      /\ keep_item None exclusions (blob "secret/key.pem") = true).
Proof.
  intros Hc Hsha Ht files. split; [| split].
  - unfold getRepoFiles, outcome. unfold_M. rewrite Hc.
    destruct sha as [| u sha]; [contradiction |]. now rewrite Ht.
  - intros item. unfold files. rewrite !list_elem_of_In, filter_In.
    unfold keep_item. rewrite !andb_true_iff, negb_true_iff.
    rewrite bool_decide_eq_true, bool_decide_eq_false.
    destruct filterFn as [f |]; tauto.
  - split; vm_compute; reflexivity.
Qed.

(** C2 on the sample repository, with [b.txt] excluded. *)
Lemma enumerator_filters_exactly_witness :
  outcome (getRepoFiles (lit "octo") (lit "demo") (lit "main") None
             (sample_remote 10 true)
             {| octokit := lit "token";
                rateLimitManager := rateLimitManager fresh;
                ignoredFiles := {[lit "b.txt"]} |})
  = inr [blob "a.txt"; blob "secret/key.pem"; blob "vendor/lib"].
Proof.
  rewrite (proj1 (enumerator_filters_exactly (sample_remote 10 true)
                    {| octokit := lit "token";
                       rateLimitManager := rateLimitManager fresh;
                       ignoredFiles := {[lit "b.txt"]} |}
                    (lit "octo") (lit "demo") (lit "main") None
                    (lit "4b825dc") sample_tree
                    eq_refl ltac:(discriminate) eq_refl)).
  vm_compute. reflexivity.
Defined.

(** C3.  On the same snapshot and arguments, with the [json] format:
    [fetchRepoContent] returns a collection exactly when the generator of
    [fetchRepoContentStream] runs to its end, and the files of the items it
    yielded, concatenated, are then the files of that collection; they are
    the same list, hence the same set.  It makes no difference whether the
    generator starts from the instance the batch call started from or from
    the one it left behind. *)
Theorem stream_collects_batch_files from_base64 r this owner repo branch
    decodeContent ignoreGitIgnoreFiles filterFn order out :
  let batch := fetchRepoContent from_base64 owner repo branch decodeContent
                 ignoreGitIgnoreFiles json filterFn order r this in
  let stream := fetchRepoContentStream from_base64 owner repo branch
                  decodeContent ignoreGitIgnoreFiles json filterFn r this in
  (outcome batch = inr (OJson out)
   <->
   outcome stream = inr tt
   /\ collected_files (yields (events stream)) = out)
  /\ fetchRepoContentStream from_base64 owner repo branch decodeContent
       ignoreGitIgnoreFiles json filterFn r (instance_after batch)
     = stream.
Proof.
  cbn zeta. split; [| apply fetchRepoContentStream_again].
  rewrite fetchRepoContent_enumerate, fetchRepoContentStream_enumerate.
  rewrite !run_bind.
  pose proof (enumerate_no_yield from_base64 r this owner repo branch
                ignoreGitIgnoreFiles filterFn) as Hny.
  destruct (enumerate from_base64 owner repo branch ignoreGitIgnoreFiles
              filterFn r this) as [[[e | files] this1] ev1].
  { unfold outcome. cbn [fst].
    split; [discriminate | intros [? _]; discriminate]. }
  pose proof (stream_files_batch_files from_base64 r this1 owner repo
                decodeContent order files out) as Htail.
  destruct (batch_files from_base64 owner repo decodeContent json order files
              r this1) as [[res2 this2] ev2].
  destruct (stream_files from_base64 owner repo decodeContent json files
              r this1) as [[res3 this3] ev3].
  unfold outcome, events in *. cbn [fst snd] in *.
  now rewrite yields_app, Hny.
Qed.

(** *** Calls that reuse an instance *)

(** C4: the code at the failing input.  A first call loads the exclusion
    file of the sample repository.  A second call on the same instance,
    with [ignoreGitIgnoreFiles] off, still runs with the set the first call
    left behind and drops [a.txt]; on a fresh instance the same call returns
    it. *)
Lemma exclusions_outlive_the_call :
  let r := sample_remote 10 true in
  let first := fetchRepoContent base64_decode (lit "octo") (lit "demo")
                 (lit "main") false true json None [] r fresh in
  let again this := fetchRepoContent base64_decode (lit "octo") (lit "demo")
                      (lit "main") false false json None [] r this in
  ignoredFiles (instance_after first) = {[lit "a.txt"]}
  /\ outcome (again (instance_after first)) = inr (OJson [file_b; file_key])
  /\ ignoredFiles (instance_after (again (instance_after first)))
     = {[lit "a.txt"]}
  /\ outcome (again fresh) = inr (OJson [file_a; file_b; file_key]).
Proof.
  cbv zeta. split; [| split; [| split]]; vm_compute; reflexivity.
Qed.

(** C5: the code at the failing input.  After a call that loaded the
    exclusion file, a call on the same instance whose exclusion-file request
    fails warns, raises nothing, and runs with the set left behind: [a.txt]
    is missing from its result, which a fresh instance returns. *)
Lemma failed_load_keeps_old_exclusions :
  let first := fetchRepoContent base64_decode (lit "octo") (lit "demo")
                 (lit "main") false true json None []
                 (sample_remote 10 true) fresh in
  let next this := fetchRepoContent base64_decode (lit "octo") (lit "other")
                     (lit "main") false true json None []
                     (sample_remote 10 false) this in
  getContent (sample_remote 10 false) (lit "octo") (lit "other")
    (lit ".gitignore") = inl (RequestError 404)
  /\ outcome (next (instance_after first)) = inr (OJson [file_b; file_key])
  /\ events (next (instance_after first))
     = [Issued rateLimit_get;
        Issued (repos_getContent (lit "octo") (lit "other") (lit ".gitignore"));
        Warned (lit "No .gitignore file found or error reading it");
        Issued (repos_getCommit (lit "octo") (lit "other") (lit "main"));
        Issued (git_getTree (lit "octo") (lit "other") (lit "4b825dc"));
        Issued (repos_getContent (lit "octo") (lit "other") (lit "b.txt"));
        Issued (repos_getContent (lit "octo") (lit "other")
                  (lit "secret/key.pem"));
        Issued (repos_getContent (lit "octo") (lit "other")
                  (lit "vendor/lib"))]
  /\ outcome (next fresh) = inr (OJson [file_a; file_b; file_key]).
Proof.
  cbv zeta. split; [| split; [| split]]; vm_compute; reflexivity.
Qed.





(** C8, as amended.  For files whose paths and contents have no unpaired
    surrogate, and every content returned by [fetchFileContent] is such,
    the [buffer] output decoded as UTF-8 is the [string] output. *)
Theorem buffer_decodes_to_string files :
  Forall (fun f => well_formed (path f) = true
                   /\ well_formed (content f) = true) files ->
  exists b s,
    formatOutput files buffer_ = inr (OBuffer b)
    /\ formatOutput files string_ = inr (OString s)
    /\ utf8_decode b = s.
Proof.
  intros Hwf. do 2 eexists. split; [reflexivity |]. split; [reflexivity |].
  apply utf8_decode_encode, well_formed_join; [reflexivity |].
  apply Forall_map. eapply Forall_impl; [exact Hwf |].
  intros f [Hp Hc]. now apply well_formed_render.
Qed.

(** The formatter on two files of the sample repository. *)
Lemma buffer_decodes_to_string_witness :
  exists b s,
    formatOutput [file_a; file_key] buffer_ = inr (OBuffer b)
    /\ formatOutput [file_a; file_key] string_ = inr (OString s)
    /\ utf8_decode b = s.
Proof.
  apply (buffer_decodes_to_string [file_a; file_key]).
  repeat (constructor; [split; reflexivity |]). constructor.
Defined.

(** C8 as stated fails on a path that holds an unpaired high surrogate:
    encoding replaces it by U+FFFD (bytes EF BF BD), so the decoded buffer
    reads U+FFFD where the string has the surrogate. *)
Lemma buffer_differs_on_unpaired_surrogate :
  let files := [{| path := [0xD800]; content := [] |}] in
  let s := lit "File: " ++ [0xD800] ++ [10] ++ lit "Content:" ++ [10; 10]
           ++ lit "---" ++ [10] in
  let b := lit "File: " ++ [0xEF; 0xBF; 0xBD] ++ [10]
           ++ lit "Content:" ++ [10; 10] ++ lit "---" ++ [10] in
  formatOutput files string_ = inr (OString s)
  /\ formatOutput files buffer_ = inr (OBuffer b)
  /\ utf8_decode b
     = lit "File: " ++ [0xFFFD] ++ [10] ++ lit "Content:" ++ [10; 10]
       ++ lit "---" ++ [10]
  /\ utf8_decode b <> s.
Proof.
  cbv zeta. split; [| split; [| split]]; try (vm_compute; reflexivity).
  vm_compute. intros H. discriminate H.
Qed.

(** C10.  [fetchFileContent] settles to the same result, with the same
    request, whether [decodeContent] is set or not: whatever bytes the
    payload decodes to, the content returned is their UTF-8 decoding. *)
Theorem decode_flag_unobservable from_base64 r this owner repo file :
  fetchFileContent from_base64 owner repo file true r this
  = fetchFileContent from_base64 owner repo file false r this
  /\ forall decodeContent,
       outcome (fetchFileContent from_base64 owner repo file decodeContent
                  r this)
       = match getContent r owner repo (item_path file) with
         | inl e => inl e
         | inr None => inr None
         | inr (Some payload) =>
             inr (Some {| path := item_path file;
                          content := utf8_decode (from_base64 payload) |})
         end.
Proof.
  split.
  - rewrite !fetchFileContent_run. now rewrite !fetched_cases.
  - intros decodeContent. rewrite fetchFileContent_run.
    unfold outcome. cbn [fst]. apply fetched_cases.
Qed.

(** ** Further properties of the loader *)

(** *** Failures before the first content request *)

Lemma enumeration_failure from_base64 r this owner repo branch decodeContent
    ignoreGitIgnoreFiles fmt filterFn order e this1 ev :
  enumerate from_base64 owner repo branch ignoreGitIgnoreFiles filterFn r this
  = (inl e, this1, ev) ->
  fetchRepoContent from_base64 owner repo branch decodeContent
    ignoreGitIgnoreFiles fmt filterFn order r this = (inl e, this1, ev)
  /\ fetchRepoContentStream from_base64 owner repo branch decodeContent
       ignoreGitIgnoreFiles fmt filterFn r this = (inl e, this1, ev).
Proof.
  intros Hen.
  rewrite fetchRepoContent_enumerate, fetchRepoContentStream_enumerate.
  rewrite !run_bind, Hen. split; reflexivity.
Qed.

(** X1.  When the quota request itself is rejected, both top-level methods
    reject with that same failure, leave the instance as it was and issue no
    other request. *)
Theorem quota_request_failure_propagates from_base64 r this owner repo branch
    decodeContent ignoreGitIgnoreFiles outputFormat filterFn order e :
  rateLimit r = inl e ->
  fetchRepoContent from_base64 owner repo branch decodeContent
    ignoreGitIgnoreFiles outputFormat filterFn order r this
  = (inl e, this, [Issued rateLimit_get])
  /\ fetchRepoContentStream from_base64 owner repo branch decodeContent
       ignoreGitIgnoreFiles outputFormat filterFn r this
     = (inl e, this, [Issued rateLimit_get]).
Proof.
  intros Hq. apply enumeration_failure.
  unfold enumerate, fetchRateLimit. unfold_M. now rewrite Hq.
Qed.

(** X1 with the quota request rejected with status 401. *)
Lemma quota_request_failure_propagates_witness :
  let r := {| rateLimit := inl (RequestError 401);
              getCommit := getCommit (sample_remote 10 true);
              getTree := getTree (sample_remote 10 true);
              getContent := getContent (sample_remote 10 true) |} in
  fetchRepoContent base64_decode (lit "octo") (lit "demo") (lit "main")
    false true json None [] r fresh
  = (inl (RequestError 401), fresh, [Issued rateLimit_get])
  /\ fetchRepoContentStream base64_decode (lit "octo") (lit "demo")
       (lit "main") false true json None r fresh
     = (inl (RequestError 401), fresh, [Issued rateLimit_get]).
Proof.
  cbv zeta.
  apply (quota_request_failure_propagates base64_decode _ fresh (lit "octo")
           (lit "demo") (lit "main") false true json None []
           (RequestError 401)).
  reflexivity.
Defined.

(** X2.  When the commit of the branch carries no tree SHA (the field is
    missing, or it is the empty string), both top-level methods reject with
    [Error("Tree SHA not found")] after the quota check, the optional
    exclusion load and the commit request: the tree listing and the contents
    are never requested. *)
Theorem missing_tree_sha_stops_enumeration from_base64 r this owner repo
    branch decodeContent ignoreGitIgnoreFiles outputFormat filterFn order q :
  rateLimit r = inr q ->
  remaining q <> 0 ->
  getCommit r owner repo branch = inr None
  \/ getCommit r owner repo branch = inr (Some []) ->
  let load := load_step from_base64 owner repo ignoreGitIgnoreFiles r this in
  fetchRepoContent from_base64 owner repo branch decodeContent
    ignoreGitIgnoreFiles outputFormat filterFn order r this
  = (inl (Error (lit "Tree SHA not found")), instance_after load,
     Issued rateLimit_get :: events load
     ++ [Issued (repos_getCommit owner repo branch)])
  /\ fetchRepoContentStream from_base64 owner repo branch decodeContent
       ignoreGitIgnoreFiles outputFormat filterFn r this
     = (inl (Error (lit "Tree SHA not found")), instance_after load,
        Issued rateLimit_get :: events load
        ++ [Issued (repos_getCommit owner repo branch)]).
Proof.
  intros Hq Hrem Hc load.
  apply enumeration_failure.
  rewrite (enumerate_run from_base64 r this owner repo branch
             ignoreGitIgnoreFiles filterFn q Hq Hrem).
  cbn zeta. fold load. rewrite getRepoFiles_run.
  destruct Hc as [-> | ->]; reflexivity.
Qed.

(** X2 with a commit whose tree SHA is the empty string. *)
Lemma missing_tree_sha_stops_enumeration_witness :
  fetchRepoContent base64_decode (lit "octo") (lit "demo") (lit "main")
    false false json None []
    (failing_remote (inr (Some [])) (inr sample_tree)) fresh
  = (inl (Error (lit "Tree SHA not found")), fresh,
     [Issued rateLimit_get;
      Issued (repos_getCommit (lit "octo") (lit "demo") (lit "main"))])
  /\ fetchRepoContentStream base64_decode (lit "octo") (lit "demo")
       (lit "main") false false json None
       (failing_remote (inr (Some [])) (inr sample_tree)) fresh
     = (inl (Error (lit "Tree SHA not found")), fresh,
        [Issued rateLimit_get;
         Issued (repos_getCommit (lit "octo") (lit "demo") (lit "main"))]).
Proof.
  apply (missing_tree_sha_stops_enumeration base64_decode
           (failing_remote (inr (Some [])) (inr sample_tree)) fresh
           (lit "octo") (lit "demo") (lit "main") false false json None []
           (quota_left 10)).
  - reflexivity.
  - discriminate.
  - right. reflexivity.
Defined.

(** X3.  When the commit request or the tree request is rejected, both
    top-level methods reject with that same failure, and no content is
    requested: the last request issued is the rejected one. *)
Theorem enumeration_request_failure_propagates from_base64 r this owner repo
    branch decodeContent ignoreGitIgnoreFiles outputFormat filterFn order q
    e :
  rateLimit r = inr q ->
  remaining q <> 0 ->
  (getCommit r owner repo branch = inl e
   \/ exists sha, sha <> [] /\ getCommit r owner repo branch = inr (Some sha)
                  /\ getTree r owner repo sha = inl e) ->
  let load := load_step from_base64 owner repo ignoreGitIgnoreFiles r this in
  let batch := fetchRepoContent from_base64 owner repo branch decodeContent
                 ignoreGitIgnoreFiles outputFormat filterFn order r this in
  let stream := fetchRepoContentStream from_base64 owner repo branch
                  decodeContent ignoreGitIgnoreFiles outputFormat filterFn
                  r this in
  outcome batch = inl e
  /\ batch = (inl e, instance_after stream, events stream)
  /\ outcome stream = inl e
  /\ exists last,
       events stream = Issued rateLimit_get :: events load ++ last
       /\ (last = [Issued (repos_getCommit owner repo branch)]
           \/ exists sha,
                last = [Issued (repos_getCommit owner repo branch);
                        Issued (git_getTree owner repo sha)]).
Proof.
  intros Hq Hrem Hfail load batch stream.
  pose proof (enumerate_run from_base64 r this owner repo branch
                ignoreGitIgnoreFiles filterFn q Hq Hrem) as Hen.
  cbn zeta in Hen. fold load in Hen. rewrite getRepoFiles_run in Hen.
  destruct Hfail as [Hc | (sha & Hsha & Hc & Ht)].
  - rewrite Hc in Hen. unfold outcome at 1, events at 2 in Hen.
    cbn [fst snd] in Hen.
    destruct (enumeration_failure from_base64 r this owner repo branch
                decodeContent ignoreGitIgnoreFiles outputFormat filterFn
                order _ _ _ Hen) as [Hb Hs].
    fold batch in Hb. fold stream in Hs. rewrite Hb, Hs.
    repeat split. eexists. split; [reflexivity |]. now left.
  - rewrite Hc in Hen. destruct sha as [| u sha]; [contradiction |].
    rewrite Ht in Hen. unfold outcome at 1, events at 2 in Hen.
    cbn [fst snd] in Hen.
    destruct (enumeration_failure from_base64 r this owner repo branch
                decodeContent ignoreGitIgnoreFiles outputFormat filterFn
                order _ _ _ Hen) as [Hb Hs].
    fold batch in Hb. fold stream in Hs. rewrite Hb, Hs.
    repeat split. eexists. split; [reflexivity |]. right. now eexists.
Qed.

(** X3 with the tree request rejected with status 409. *)
Lemma enumeration_request_failure_propagates_witness :
  let r := failing_remote (inr (Some (lit "4b825dc")))
             (inl (RequestError 409)) in
  let load := load_step base64_decode (lit "octo") (lit "demo") true r fresh in
  let batch := fetchRepoContent base64_decode (lit "octo") (lit "demo")
                 (lit "main") false true json None [] r fresh in
  let stream := fetchRepoContentStream base64_decode (lit "octo")
                  (lit "demo") (lit "main") false true json None r fresh in
  outcome batch = inl (RequestError 409)
  /\ batch = (inl (RequestError 409), instance_after stream, events stream)
  /\ outcome stream = inl (RequestError 409)
  /\ exists last,
       events stream = Issued rateLimit_get :: events load ++ last
       /\ (last = [Issued (repos_getCommit (lit "octo") (lit "demo")
                             (lit "main"))]
           \/ exists sha,
                last = [Issued (repos_getCommit (lit "octo") (lit "demo")
                                  (lit "main"));
                        Issued (git_getTree (lit "octo") (lit "demo") sha)]).
Proof.
  apply (enumeration_request_failure_propagates base64_decode
           (failing_remote (inr (Some (lit "4b825dc")))
              (inl (RequestError 409)))
           fresh (lit "octo") (lit "demo") (lit "main") false true json None
           [] (quota_left 10) (RequestError 409)).
  - reflexivity.
  - discriminate.
  - right. exists (lit "4b825dc"). repeat split. discriminate.
Defined.

(** *** The generator, entry by entry *)

Lemma stream_files_app from_base64 r this owner repo decodeContent fmt pre
    rest :
  stream_files from_base64 owner repo decodeContent fmt (pre ++ rest) r this
  = (stream_files from_base64 owner repo decodeContent fmt pre
     ≫= fun _ => stream_files from_base64 owner repo decodeContent fmt rest)
      r this.
Proof.
  induction pre as [| file pre IH].
  - cbn [app stream_files]. rewrite run_bind. unfold_M.
    now destruct (stream_files from_base64 owner repo decodeContent fmt rest
                    r this) as [[res this'] ev].
  - cbn [app stream_files]. rewrite <- !bind_assoc_run.
    rewrite !(run_bind (fetchFileContent _ _ _ _ _)).
    rewrite fetchFileContent_run.
    destruct (fetched from_base64 r owner repo decodeContent file)
      as [e | c]; [reflexivity |].
    rewrite <- !bind_assoc_run.
    rewrite !(run_bind (match c with Some _ => _ | None => _ end)).
    destruct ((match c with
               | Some c0 =>
                   chunk ← lift (formatOutput [c0] fmt); emit (Yielded chunk)
               | None => mret tt
               end) r this) as [[[e | []] this1] ev1] eqn:Hstep;
      [reflexivity |].
    assert (this1 = this) as ->.
    { destruct c as [c0 |]; unfold_M;
        [destruct (formatOutput [c0] fmt) |]; now inversion Hstep. }
    now rewrite IH.
Qed.

Lemma stream_files_settled from_base64 r this owner repo decodeContent fmt
    files vs :
  (forall name, fmt <> unsupported name) ->
  map (fetched from_base64 r owner repo decodeContent) files = map inr vs ->
  let run := stream_files from_base64 owner repo decodeContent fmt files
               r this in
  outcome run = inr tt /\ instance_after run = this
  /\ Forall2 (fun o f => formatOutput [f] fmt = inr o)
       (yields (events run)) (omap id vs)
  /\ calls (events run) =
       map (fun file => repos_getContent owner repo (item_path file)) files.
Proof.
  intros Hfmt. revert vs.
  induction files as [| file files IH]; intros vs Hvs.
  - destruct vs; [| discriminate]. cbn. repeat split. constructor.
  - destruct vs as [| v vs]; [discriminate |].
    cbn [map] in Hvs. injection Hvs as Hv Hvs.
    specialize (IH vs Hvs). cbn zeta in IH |- *.
    cbn [stream_files]. rewrite run_bind, fetchFileContent_run, Hv.
    rewrite run_bind.
    destruct (stream_files from_base64 owner repo decodeContent fmt files
                r this) as [[res this'] ev] eqn:Hrun.
    unfold outcome, instance_after, events in *. cbn [fst snd] in IH.
    destruct IH as (-> & -> & Hy & Hc).
    destruct v as [f |].
    + assert (Hchunk : exists chunk, formatOutput [f] fmt = inr chunk).
      { destruct fmt as [| | | name]; try (eexists; reflexivity).
        now destruct (Hfmt name). }
      destruct Hchunk as [chunk Hchunk].
      unfold_M. rewrite Hchunk, Hrun. cbn [fst snd app]. repeat split.
      * change (Forall2 (fun o f => formatOutput [f] fmt = inr o)
                  (chunk :: yields ev) (f :: omap id vs)).
        now constructor.
      * change (repos_getContent owner repo (item_path file) :: calls ev
                = repos_getContent owner repo (item_path file)
                  :: map (fun file => repos_getContent owner repo
                                        (item_path file)) files).
        now rewrite Hc.
    + unfold_M. rewrite Hrun. cbn [fst snd app]. repeat split.
      * exact Hy.
      * change (repos_getContent owner repo (item_path file) :: calls ev
                = repos_getContent owner repo (item_path file)
                  :: map (fun file => repos_getContent owner repo
                                        (item_path file)) files).
        now rewrite Hc.
Qed.

(** What both top-level methods come to once the enumeration succeeds. *)
Lemma top_level_after_enumeration from_base64 r this owner repo branch
    decodeContent ignoreGitIgnoreFiles fmt filterFn order q sha listing :
  rateLimit r = inr q ->
  remaining q <> 0 ->
  getCommit r owner repo branch = inr (Some sha) ->
  sha <> [] ->
  getTree r owner repo sha = inr listing ->
  let load := load_step from_base64 owner repo ignoreGitIgnoreFiles r this in
  let this1 := instance_after load in
  let files := List.filter (keep_item filterFn (ignoredFiles this1)) listing in
  let before :=
    Issued rateLimit_get :: events load
    ++ [Issued (repos_getCommit owner repo branch);
        Issued (git_getTree owner repo sha)] in
  fetchRepoContent from_base64 owner repo branch decodeContent
    ignoreGitIgnoreFiles fmt filterFn order r this
  = (let '(res, this2, ev) :=
       batch_files from_base64 owner repo decodeContent fmt order files
         r this1 in
     (res, this2, before ++ ev))
  /\ fetchRepoContentStream from_base64 owner repo branch decodeContent
       ignoreGitIgnoreFiles fmt filterFn r this
     = (let '(res, this2, ev) :=
          stream_files from_base64 owner repo decodeContent fmt files
            r this1 in
        (res, this2, before ++ ev)).
Proof.
  intros Hq Hrem Hc Hsha Ht load this1 files before.
  pose proof (enumerate_run from_base64 r this owner repo branch
                ignoreGitIgnoreFiles filterFn q Hq Hrem) as Hen.
  cbn zeta in Hen. fold load in Hen. fold this1 in Hen.
  rewrite (getRepoFiles_run r this1) in Hen. rewrite Hc in Hen.
  destruct sha as [| u sha]; [contradiction |]. rewrite Ht in Hen.
  unfold outcome at 1, events at 2 in Hen. cbn [fst snd] in Hen.
  fold files in Hen.
  rewrite fetchRepoContent_enumerate, fetchRepoContentStream_enumerate.
  rewrite !run_bind, Hen. unfold before.
  split; reflexivity.
Qed.

(** A list of promises with a rejected one splits at the first of them. *)
Lemma first_rejected_split {A} (promises : list (exn + A)) e :
  inl e ∈ promises ->
  exists vs e' rest, promises = map inr vs ++ inl e' :: rest.
Proof.
  induction promises as [| [e0 | v] ps IH]; intros He.
  - inversion He.
  - now exists [], e0, ps.
  - apply elem_of_cons in He as [He | He]; [discriminate |].
    destruct (IH He) as (vs & e' & rest & ->).
    now exists (v :: vs), e', rest.
Qed.

Lemma map_split_app {A B} (f : A -> B) l l1 l2 :
  map f l = l1 ++ l2 ->
  exists k1 k2, l = k1 ++ k2 /\ map f k1 = l1 /\ map f k2 = l2.
Proof.
  revert l. induction l1 as [| b l1 IH]; intros l H.
  - now exists [], l.
  - destruct l as [| a l]; [discriminate |].
    cbn in H. injection H as Hb H.
    destruct (IH l H) as (k1 & k2 & -> & H1 & H2).
    exists (a :: k1), k2. cbn. now rewrite Hb, H1.
Qed.

Lemma stream_files_first_failure from_base64 r this owner repo decodeContent
    fmt pre file post vs e :
  (forall name, fmt <> unsupported name) ->
  map (fetched from_base64 r owner repo decodeContent) pre = map inr vs ->
  fetched from_base64 r owner repo decodeContent file = inl e ->
  let run := stream_files from_base64 owner repo decodeContent fmt
               (pre ++ file :: post) r this in
  outcome run = inl e /\ instance_after run = this
  /\ Forall2 (fun o f => formatOutput [f] fmt = inr o)
       (yields (events run)) (omap id vs)
  /\ calls (events run) =
       map (fun file => repos_getContent owner repo (item_path file))
         (pre ++ [file]).
Proof.
  intros Hfmt Hvs He. cbn zeta.
  rewrite stream_files_app, run_bind.
  destruct (stream_files_settled from_base64 r this owner repo decodeContent
              fmt pre vs Hfmt Hvs) as (Ho & Hi & Hy & Hc).
  destruct (stream_files from_base64 owner repo decodeContent fmt pre r this)
    as [[res this1] ev1].
  unfold outcome, instance_after, events in *. cbn [fst snd] in *.
  subst res this1.
  cbn [stream_files]. rewrite run_bind, fetchFileContent_run, He.
  cbn [fst snd]. repeat split.
  - rewrite yields_app. cbn. now rewrite app_nil_r.
  - rewrite calls_app, Hc, map_app. reflexivity.
Qed.

(** X4.  In streaming mode the files are fetched one after the other: when
    the request for one entry is rejected and the requests for the entries
    before it are not, the generator has yielded one formatted item per
    earlier entry that has content, in order, it rejects with that failure,
    and nothing is requested for the entries after it. *)
Theorem stream_stops_at_first_failure from_base64 r this owner repo
    decodeContent outputFormat pre file post e :
  (forall name, outputFormat <> unsupported name) ->
  (forall item, item ∈ pre ->
     exists c, getContent r owner repo (item_path item) = inr c) ->
  getContent r owner repo (item_path file) = inl e ->
  let run := stream_files from_base64 owner repo decodeContent outputFormat
               (pre ++ file :: post) r this in
  outcome run = inl e
  /\ instance_after run = this
  /\ Forall2 (fun o f => formatOutput [f] outputFormat = inr o)
       (yields (events run))
       (omap (present_file from_base64 r owner repo) pre)
  /\ calls (events run) =
       map (fun item => repos_getContent owner repo (item_path item))
         (pre ++ [file]).
Proof.
  intros Hfmt Hpre He.
  pose proof (fetched_all_settled from_base64 r owner repo decodeContent pre
                Hpre) as Hvs.
  assert (Hf : fetched from_base64 r owner repo decodeContent file = inl e).
  { rewrite fetched_cases. now rewrite He. }
  pose proof (stream_files_first_failure from_base64 r this owner repo
                decodeContent outputFormat pre file post _ e Hfmt Hvs Hf)
    as H.
  cbn zeta in H |- *. now rewrite omap_id_map in H.
Qed.

(** X4 on three entries, the second of which is gone. *)
Lemma stream_stops_at_first_failure_witness :
  let run := stream_files base64_decode (lit "octo") (lit "demo") false
               string_
               ([blob "secret/key.pem"] ++ blob "gone.txt" :: [blob "b.txt"])
               flaky_remote fresh in
  outcome run = inl (RequestError 404)
  /\ instance_after run = fresh
  /\ Forall2 (fun o f => formatOutput [f] string_ = inr o)
       (yields (events run))
       (omap (present_file base64_decode flaky_remote (lit "octo")
                (lit "demo")) [blob "secret/key.pem"])
  /\ calls (events run) =
       map (fun item => repos_getContent (lit "octo") (lit "demo")
                          (item_path item))
         ([blob "secret/key.pem"] ++ [blob "gone.txt"]).
Proof.
  apply (stream_stops_at_first_failure base64_decode flaky_remote fresh
           (lit "octo") (lit "demo") false string_ [blob "secret/key.pem"]
           (blob "gone.txt") [blob "b.txt"] (RequestError 404)).
  - discriminate.
  - intros item Hin.
    apply elem_of_cons in Hin as [-> | Hin];
      [eexists; vm_compute; reflexivity | inversion Hin].
  - vm_compute. reflexivity.
Defined.

Lemma settle_prefix_fulfilled {A} (promises : list (exn + A)) settled_first
    i rest e : forall slots,
  (forall j, j ∈ settled_first ->
     forall p, promises !! j = Some p -> exists v, p = inr v) ->
  promises !! i = Some (inl e) ->
  settle promises (settled_first ++ i :: rest) slots = inl e.
Proof.
  induction settled_first as [| j earlier IH]; intros slots Hdone Hi.
  - cbn [app settle]. now rewrite Hi.
  - cbn [app settle]. destruct (promises !! j) as [p |] eqn:Hj.
    + destruct (Hdone j (list_elem_of_here _ _) p Hj) as [v ->].
      apply IH; [| exact Hi].
      intros k Hk. apply Hdone. now apply list_elem_of_further.
    + apply IH; [| exact Hi].
      intros k Hk. apply Hdone. now apply list_elem_of_further.
Qed.

(** X5.  In batch mode every content request is issued, whatever becomes of
    the others, and the call rejects with the failure that settles first:
    when the fetch of entry [i] is rejected and the fetches that settle
    before it are fulfilled, the batch rejects with the failure of entry
    [i], with one content request per enumerated entry on record. *)
Theorem batch_rejects_with_first_settled_failure from_base64 r this owner
    repo decodeContent outputFormat files settled_first i rest file e :
  files !! i = Some file ->
  getContent r owner repo (item_path file) = inl e ->
  (forall j item, j ∈ settled_first -> files !! j = Some item ->
     exists c, getContent r owner repo (item_path item) = inr c) ->
  batch_files from_base64 owner repo decodeContent outputFormat
    (settled_first ++ i :: rest) files r this
  = (inl e, this, content_calls owner repo files).
Proof.
  intros Hi He Hdone. unfold batch_files.
  rewrite run_bind, start_all_run, run_bind. unfold lift at 1.
  unfold promise_all. rewrite <- app_assoc, <- app_comm_cons.
  rewrite (settle_prefix_fulfilled _ settled_first i _ e).
  - now rewrite app_nil_r.
  - intros j Hj p Hp. rewrite list_lookup_fmap in Hp.
    destruct (files !! j) as [item |] eqn:Hitem; [| discriminate].
    cbn in Hp. injection Hp as <-.
    destruct (Hdone j item Hj Hitem) as [c Hc].
    rewrite fetched_cases, Hc. destruct c; eexists; reflexivity.
  - rewrite list_lookup_fmap, Hi. cbn. rewrite fetched_cases.
    now rewrite He.
Qed.

(** Two rejected fetches: the batch reports the one that settles first. *)
Lemma batch_rejects_with_first_settled_failure_witness :
  batch_files base64_decode (lit "octo") (lit "demo") false json
    ([0%nat] ++ 2%nat :: [1%nat])
    [blob "secret/key.pem"; blob "gone.txt"; blob "b.txt"] flaky_remote fresh
  = (inl (RequestError 500), fresh,
     content_calls (lit "octo") (lit "demo")
       [blob "secret/key.pem"; blob "gone.txt"; blob "b.txt"]).
Proof.
  apply (batch_rejects_with_first_settled_failure base64_decode flaky_remote
           fresh (lit "octo") (lit "demo") false json
           [blob "secret/key.pem"; blob "gone.txt"; blob "b.txt"]
           [0%nat] 2%nat [1%nat] (blob "b.txt") (RequestError 500)).
  - reflexivity.
  - vm_compute. reflexivity.
  - intros j item Hj Hitem.
    apply elem_of_cons in Hj as [-> | Hj]; [| inversion Hj].
    injection Hitem as <-. eexists. vm_compute. reflexivity.
Defined.



(** *** The requests of a call *)

Lemma load_step_calls from_base64 r this owner repo ignoreGitIgnoreFiles :
  calls (events (load_step from_base64 owner repo ignoreGitIgnoreFiles r this))
  = if ignoreGitIgnoreFiles
    then [repos_getContent owner repo (lit ".gitignore")] else [].
Proof.
  unfold load_step. destruct ignoreGitIgnoreFiles; [| reflexivity].
  rewrite loadGitignore_run.
  destruct (getContent r owner repo (lit ".gitignore")) as [e | [p |]];
    reflexivity.
Qed.

Lemma calls_content_calls owner repo files :
  calls (content_calls owner repo files)
  = map (fun item => repos_getContent owner repo (item_path item)) files.
Proof.
  unfold content_calls, calls.
  induction files as [| file files IH]; [reflexivity |].
  cbn. now rewrite IH.
Qed.

Lemma batch_files_events from_base64 r this owner repo decodeContent fmt
    order files :
  events (batch_files from_base64 owner repo decodeContent fmt order files
            r this) = content_calls owner repo files.
Proof.
  destruct (fulfilled_or_rejected
              (map (fetched from_base64 r owner repo decodeContent) files))
    as [[vs Hvs] | [e He]].
  - now rewrite (batch_files_fulfilled from_base64 r this owner repo
                   decodeContent fmt order files vs Hvs).
  - destruct (batch_files_rejected from_base64 r this owner repo
                decodeContent fmt order files e He) as (e1 & -> & _).
    reflexivity.
Qed.

(** X7.  Once the branch resolves and the listing arrives, a batch call
    issues, in this order: the quota check, the request for [.gitignore]
    when exclusions are on, the commit and tree requests, and one content
    request per entry that survives the filter, whether or not some of them
    fail.  The generator issues an initial part of the same requests, all of
    them when it runs to its end: streaming never costs more requests than
    the batch. *)
Theorem requests_of_a_call from_base64 r this owner repo branch
    decodeContent ignoreGitIgnoreFiles outputFormat filterFn order q sha
    listing :
  rateLimit r = inr q ->
  remaining q <> 0 ->
  getCommit r owner repo branch = inr (Some sha) ->
  sha <> [] ->
  getTree r owner repo sha = inr listing ->
  (forall name, outputFormat <> unsupported name) ->
  let batch := fetchRepoContent from_base64 owner repo branch decodeContent
                 ignoreGitIgnoreFiles outputFormat filterFn order r this in
  let stream := fetchRepoContentStream from_base64 owner repo branch
                  decodeContent ignoreGitIgnoreFiles outputFormat filterFn
                  r this in
  let files :=
    List.filter (keep_item filterFn (ignoredFiles (instance_after batch)))
      listing in
  calls (events batch)
  = rateLimit_get
    :: (if ignoreGitIgnoreFiles
        then [repos_getContent owner repo (lit ".gitignore")] else [])
    ++ [repos_getCommit owner repo branch; git_getTree owner repo sha]
    ++ map (fun item => repos_getContent owner repo (item_path item)) files
  /\ exists not_requested,
       calls (events batch) = calls (events stream) ++ not_requested
       /\ (outcome stream = inr tt -> not_requested = []).
Proof.
  intros Hq Hrem Hc Hsha Ht Hfmt batch stream.
  destruct (top_level_after_enumeration from_base64 r this owner repo branch
              decodeContent ignoreGitIgnoreFiles outputFormat filterFn order
              q sha listing Hq Hrem Hc Hsha Ht) as [Hb Hs].
  cbn zeta in Hb, Hs. fold batch in Hb. fold stream in Hs.
  set (load := load_step from_base64 owner repo ignoreGitIgnoreFiles r this)
    in *.
  set (this1 := instance_after load) in *.
  set (files := List.filter (keep_item filterFn (ignoredFiles this1)) listing)
    in *.
  pose proof (batch_files_frame from_base64 r this1 owner repo decodeContent
                outputFormat order files) as Hframe.
  pose proof (batch_files_events from_base64 r this1 owner repo decodeContent
                outputFormat order files) as Hev.
  destruct (batch_files from_base64 owner repo decodeContent outputFormat
              order files r this1) as [[res2 this2] ev2].
  unfold instance_after at 1 in Hframe. unfold events at 1 in Hev.
  cbn [fst snd] in Hframe, Hev. subst this2 ev2.
  assert (Hinst : instance_after batch = this1) by now rewrite Hb.
  cbn zeta. rewrite Hinst. fold files.
  assert (Hbc : calls (events batch)
                = rateLimit_get
                  :: (if ignoreGitIgnoreFiles
                      then [repos_getContent owner repo (lit ".gitignore")]
                      else [])
                  ++ [repos_getCommit owner repo branch;
                      git_getTree owner repo sha]
                  ++ map (fun item => repos_getContent owner repo
                                        (item_path item)) files).
  { rewrite Hb. unfold events at 1. cbn [snd].
    rewrite calls_app, calls_content_calls.
    change (calls (Issued rateLimit_get :: events load
                   ++ [Issued (repos_getCommit owner repo branch);
                       Issued (git_getTree owner repo sha)]))
      with (rateLimit_get
            :: calls (events load
                      ++ [Issued (repos_getCommit owner repo branch);
                          Issued (git_getTree owner repo sha)])).
    rewrite calls_app. unfold load. rewrite load_step_calls.
    cbn [app]. now rewrite <- app_assoc. }
  split; [exact Hbc |].
  assert (Hsc : forall ev3,
            calls ((Issued rateLimit_get :: events load
                    ++ [Issued (repos_getCommit owner repo branch);
                        Issued (git_getTree owner repo sha)]) ++ ev3)
            = (rateLimit_get
               :: (if ignoreGitIgnoreFiles
                   then [repos_getContent owner repo (lit ".gitignore")]
                   else [])
               ++ [repos_getCommit owner repo branch;
                   git_getTree owner repo sha])
              ++ calls ev3).
  { intros ev3. rewrite calls_app. f_equal.
    change (calls (Issued rateLimit_get :: events load
                   ++ [Issued (repos_getCommit owner repo branch);
                       Issued (git_getTree owner repo sha)]))
      with (rateLimit_get
            :: calls (events load
                      ++ [Issued (repos_getCommit owner repo branch);
                          Issued (git_getTree owner repo sha)])).
    rewrite calls_app. unfold load. now rewrite load_step_calls. }
  rewrite Hbc.
  destruct (fulfilled_or_rejected
              (map (fetched from_base64 r owner repo decodeContent) files))
    as [[vs Hvs] | [e He]].
  - exists []. split; [| reflexivity]. rewrite app_nil_r.
    destruct (stream_files_settled from_base64 r this1 owner repo
                decodeContent outputFormat files vs Hfmt Hvs)
      as (_ & _ & _ & Hcalls).
    rewrite Hs.
    destruct (stream_files from_base64 owner repo decodeContent outputFormat
                files r this1) as [[res3 this3] ev3].
    unfold events in *. cbn [snd] in *.
    rewrite Hsc, Hcalls. cbn [app]. now rewrite <- !app_assoc.
  - destruct (first_rejected_split _ e He) as (vs & e' & rest & Hsplit).
    destruct (map_split_app _ _ _ _ Hsplit) as (pre & k2 & Hfiles & Hpre & Hk2).
    destruct k2 as [| file post]; [discriminate |].
    cbn [map] in Hk2. injection Hk2 as Hfile Hpost.
    destruct (stream_files_first_failure from_base64 r this1 owner repo
                decodeContent outputFormat pre file post vs e' Hfmt Hpre
                Hfile) as (Hout & _ & _ & Hcalls).
    exists (map (fun item => repos_getContent owner repo (item_path item))
              post).
    rewrite Hs. rewrite <- Hfiles in Hout, Hcalls.
    destruct (stream_files from_base64 owner repo decodeContent outputFormat
                files r this1) as [[res3 this3] ev3].
    unfold events, outcome in *. cbn [fst snd] in *.
    split; [| rewrite Hout; discriminate].
    rewrite Hsc, Hcalls, Hfiles, !map_app. cbn [app map].
    now rewrite <- !app_assoc.
Qed.

(** X7 on the sample repository. *)
Lemma requests_of_a_call_witness :
  let r := sample_remote 10 true in
  let batch := fetchRepoContent base64_decode (lit "octo") (lit "demo")
                 (lit "main") false true string_ None [] r fresh in
  let stream := fetchRepoContentStream base64_decode (lit "octo")
                  (lit "demo") (lit "main") false true string_ None r fresh in
  let files :=
    List.filter (keep_item None (ignoredFiles (instance_after batch)))
      sample_tree in
  calls (events batch)
  = rateLimit_get
    :: (if true
        then [repos_getContent (lit "octo") (lit "demo") (lit ".gitignore")]
        else [])
    ++ [repos_getCommit (lit "octo") (lit "demo") (lit "main");
        git_getTree (lit "octo") (lit "demo") (lit "4b825dc")]
    ++ map (fun item => repos_getContent (lit "octo") (lit "demo")
                          (item_path item)) files
  /\ exists not_requested,
       calls (events batch) = calls (events stream) ++ not_requested
       /\ (outcome stream = inr tt -> not_requested = []).
Proof.
  apply (requests_of_a_call base64_decode (sample_remote 10 true) fresh
           (lit "octo") (lit "demo") (lit "main") false true string_ None []
           (quota_left 10) (lit "4b825dc") sample_tree);
    try reflexivity; discriminate.
Defined.

(** *** Streamed chunks and the batch output *)

Lemma code_points_app_newline s t :
  code_points (s ++ 10 :: t) = code_points s ++ 10 :: code_points t.
Proof.
  remember (length s) as n eqn:Hn. revert s Hn.
  induction n as [n IH] using lt_wf_ind. intros s Hn.
  destruct s as [| u rest]; [reflexivity |].
  cbn [app code_points].
  destruct (is_high_surrogate u).
  - destruct rest as [| v rest']; [reflexivity |].
    cbn [app]. destruct (is_low_surrogate v).
    + rewrite (IH (length rest')) by (cbn in Hn; lia || reflexivity).
      reflexivity.
    + change (v :: rest' ++ 10 :: t) with ((v :: rest') ++ 10 :: t).
      rewrite (IH (length (v :: rest'))) by (cbn in Hn |- *; lia || reflexivity).
      reflexivity.
  - destruct (is_low_surrogate u);
      rewrite (IH (length rest)) by (cbn in Hn; lia || reflexivity);
      reflexivity.
Qed.

Lemma utf8_encode_app_newline s t :
  utf8_encode (s ++ 10 :: t) = utf8_encode s ++ 10 :: utf8_encode t.
Proof.
  unfold utf8_encode. rewrite code_points_app_newline, flat_map_app.
  reflexivity.
Qed.

Lemma utf8_encode_join_lines parts :
  utf8_encode (join [10] parts) = join [10] (map utf8_encode parts).
Proof.
  induction parts as [| p parts IH]; [reflexivity |].
  destruct parts as [| p' parts]; [reflexivity |].
  change (join [10] (p :: p' :: parts))
    with (p ++ 10 :: join [10] (p' :: parts)).
  rewrite utf8_encode_app_newline, IH. reflexivity.
Qed.

Lemma yields_of_format fmt (g : FetchedFile -> Output) ys fs :
  (forall f, formatOutput [f] fmt = inr (g f)) ->
  Forall2 (fun o f => formatOutput [f] fmt = inr o) ys fs ->
  ys = map g fs.
Proof.
  intros Hg. induction 1 as [| o f ys fs Ho _ IH]; [reflexivity |].
  rewrite Hg in Ho. injection Ho as <-. cbn. now rewrite IH.
Qed.

(** X8.  When no content request fails, the text returned in batch mode is
    the chunks the generator yields in [string] format joined by a line
    feed, and the bytes returned in [buffer] format are the buffers the
    generator yields joined by the byte 0x0A; each chunk is the rendering of
    one file that has content, in enumeration order. *)
Theorem batch_output_joins_streamed_chunks from_base64 r this owner repo
    decodeContent order files :
  (forall item, item ∈ files ->
     exists c, getContent r owner repo (item_path item) = inr c) ->
  let chunks :=
    map render (omap (present_file from_base64 r owner repo) files) in
  let batch fmt := batch_files from_base64 owner repo decodeContent fmt order
                     files r this in
  let stream fmt := stream_files from_base64 owner repo decodeContent fmt
                      files r this in
  yields (events (stream string_)) = map OString chunks
  /\ outcome (batch string_) = inr (OString (join [10] chunks))
  /\ yields (events (stream buffer_)) = map OBuffer (map utf8_encode chunks)
  /\ outcome (batch buffer_)
     = inr (OBuffer (join [10] (map utf8_encode chunks))).
Proof.
  intros Hall chunks batch stream.
  pose proof (fetched_all_settled from_base64 r owner repo decodeContent
                files Hall) as Hvs.
  assert (Hb : forall fmt,
            outcome (batch fmt)
            = formatOutput (omap (present_file from_base64 r owner repo) files)
                fmt).
  { intros fmt. unfold batch.
    rewrite (batch_files_fulfilled from_base64 r this owner repo
               decodeContent fmt order files _ Hvs).
    unfold outcome. cbn [fst]. now rewrite omap_id_map. }
  assert (Hs : forall fmt, (forall name, fmt <> unsupported name) ->
            Forall2 (fun o f => formatOutput [f] fmt = inr o)
              (yields (events (stream fmt)))
              (omap (present_file from_base64 r owner repo) files)).
  { intros fmt Hfmt.
    destruct (stream_files_settled from_base64 r this owner repo
                decodeContent fmt files _ Hfmt Hvs) as (_ & _ & Hy & _).
    now rewrite omap_id_map in Hy. }
  split; [| split; [| split]].
  - rewrite (yields_of_format string_ (fun f => OString (render f)) _ _
               ltac:(reflexivity) (Hs string_ ltac:(discriminate))).
    unfold chunks. now rewrite map_map.
  - rewrite Hb. reflexivity.
  - rewrite (yields_of_format buffer_
               (fun f => OBuffer (utf8_encode (render f))) _ _
               ltac:(reflexivity) (Hs buffer_ ltac:(discriminate))).
    unfold chunks. now rewrite !map_map.
  - rewrite Hb. cbn [formatOutput]. fold chunks.
    now rewrite utf8_encode_join_lines.
Qed.

(** X8 on the sample repository. *)
Lemma batch_output_joins_streamed_chunks_witness :
  let files := [blob "a.txt"; blob "vendor/lib"; blob "secret/key.pem"] in
  let r := sample_remote 10 true in
  let chunks :=
    map render
      (omap (present_file base64_decode r (lit "octo") (lit "demo")) files) in
  let batch fmt := batch_files base64_decode (lit "octo") (lit "demo") false
                     fmt [1; 2; 0]%nat files r fresh in
  let stream fmt := stream_files base64_decode (lit "octo") (lit "demo")
                      false fmt files r fresh in
  yields (events (stream string_)) = map OString chunks
  /\ outcome (batch string_) = inr (OString (join [10] chunks))
  /\ yields (events (stream buffer_)) = map OBuffer (map utf8_encode chunks)
  /\ outcome (batch buffer_)
     = inr (OBuffer (join [10] (map utf8_encode chunks))).
Proof.
  apply (batch_output_joins_streamed_chunks base64_decode
           (sample_remote 10 true) fresh (lit "octo") (lit "demo") false
           [1; 2; 0]%nat
           [blob "a.txt"; blob "vendor/lib"; blob "secret/key.pem"]).
  intros item Hin.
  repeat (apply elem_of_cons in Hin as [-> | Hin];
          [eexists; vm_compute; reflexivity |]).
  inversion Hin.
Defined.

(** *** The exclusion file *)

Lemma trim_start_split s :
  exists ws,
    s = ws ++ trim_start s /\ Forall (fun u => is_white_space u = true) ws.
Proof.
  induction s as [| u s IH]; [now exists [] |].
  cbn [trim_start]. destruct (is_white_space u) eqn:Hu.
  - destruct IH as (ws & Hs & Hws). exists (u :: ws). split.
    + cbn. now rewrite <- Hs.
    + now constructor.
  - now exists [].
Qed.

Lemma trim_start_head s u rest :
  trim_start s = u :: rest -> is_white_space u = false.
Proof.
  induction s as [| v s IH]; [discriminate |].
  cbn [trim_start]. destruct (is_white_space v) eqn:Hv; [exact IH |].
  now intros [= <- _].
Qed.

Lemma trim_start_fixed s :
  match s with [] => True | u :: _ => is_white_space u = false end ->
  trim_start s = s.
Proof. destruct s as [| u s]; [reflexivity |]. cbn. now intros ->. Qed.

(** [trim] cuts white space off both ends and nothing else. *)
Lemma trim_split s :
  exists ws1 ws2,
    s = ws1 ++ trim s ++ ws2
    /\ Forall (fun u => is_white_space u = true) ws1
    /\ Forall (fun u => is_white_space u = true) ws2.
Proof.
  destruct (trim_start_split s) as (ws1 & Hs & Hws1).
  destruct (trim_start_split (rev (trim_start s))) as (ws & Hr & Hws).
  exists ws1, (rev ws). unfold trim. repeat split; [| exact Hws1 |].
  - rewrite <- rev_app_distr, <- Hr, rev_involutive. exact Hs.
  - apply Forall_forall. intros u Hu. apply list_elem_of_In, in_rev in Hu.
    rewrite Forall_forall in Hws. now apply Hws, list_elem_of_In.
Qed.

Lemma trim_head s u rest : trim s = u :: rest -> is_white_space u = false.
Proof.
  intros Ht. unfold trim in Ht.
  destruct (trim_start_split (rev (trim_start s))) as (ws & Hr & _).
  apply (f_equal (@rev Z)) in Hr.
  rewrite rev_involutive, rev_app_distr, Ht in Hr. cbn [app] in Hr.
  now apply trim_start_head in Hr.
Qed.

Lemma trim_last s init u : trim s = init ++ [u] -> is_white_space u = false.
Proof.
  intros Ht. unfold trim in Ht. apply (f_equal (@rev Z)) in Ht.
  rewrite rev_involutive, rev_app_distr in Ht. cbn [rev app] in Ht.
  now apply trim_start_head in Ht.
Qed.

Lemma trim_idempotent s : trim (trim s) = trim s.
Proof.
  assert (Hfront : trim_start (trim s) = trim s).
  { apply trim_start_fixed. destruct (trim s) as [| u rest] eqn:Ht; [exact I |].
    now apply trim_head in Ht. }
  unfold trim at 1. rewrite Hfront.
  rewrite trim_start_fixed; [apply rev_involutive |].
  destruct (rev (trim s)) as [| u rest] eqn:Hr; [exact I |].
  apply (f_equal (@rev Z)) in Hr. rewrite rev_involutive in Hr.
  cbn [rev] in Hr. now apply trim_last in Hr.
Qed.

Lemma split_lines_no_newline s line :
  line ∈ split_lines s -> Forall (fun u => u <> 10) line.
Proof.
  revert line. induction s as [| u s IH]; intros line Hin.
  - apply list_elem_of_singleton in Hin as ->. constructor.
  - cbn [split_lines] in Hin. destruct (Z.eqb_spec u 10) as [-> | Hu].
    + apply elem_of_cons in Hin as [-> | Hin]; [constructor | now apply IH].
    + destruct (split_lines s) as [| first others].
      * apply list_elem_of_singleton in Hin as ->. now repeat constructor.
      * apply elem_of_cons in Hin as [-> | Hin].
        -- constructor; [exact Hu |]. apply IH, list_elem_of_here.
        -- now apply IH, list_elem_of_further.
Qed.

Lemma split_lines_nonempty s : split_lines s <> [].
Proof.
  destruct s as [| u s]; [discriminate |].
  cbn [split_lines]. destruct (u =? 10); [discriminate |].
  now destruct (split_lines s).
Qed.

(** Splitting at line feeds loses nothing: the lines joined by a line feed
    are the text. *)
Lemma join_split_lines s : join [10] (split_lines s) = s.
Proof.
  induction s as [| u s IH]; [reflexivity |].
  pose proof (split_lines_nonempty s) as Hne.
  cbn [split_lines]. destruct (Z.eqb_spec u 10) as [-> | Hu].
  - destruct (split_lines s) as [| first others]; [contradiction |].
    change (join [10] ([] :: first :: others))
      with (10 :: join [10] (first :: others)).
    now rewrite IH.
  - destruct (split_lines s) as [| first others]; [contradiction |].
    destruct others as [| second others].
    + cbn [join] in IH |- *. now rewrite IH.
    + change (join [10] ((u :: first) :: second :: others))
        with (u :: join [10] (first :: second :: others)).
      now rewrite IH.
Qed.

(** X9.  Every pattern [loadGitignore] puts into the exclusion set is a line
    of the decoded file with the white space cut off both ends: it is not
    empty, does not start with [#], has no white space left at either end
    (trimming it again changes nothing) and holds no line feed.  Nothing
    else is done to a line: it is kept character for character. *)
Theorem gitignore_patterns_are_trimmed_lines gitignoreContent p :
  p ∈ parse_gitignore gitignoreContent ->
  (exists line ws1 ws2,
     line ∈ split_lines gitignoreContent
     /\ line = ws1 ++ p ++ ws2
     /\ Forall (fun u => is_white_space u = true) ws1
     /\ Forall (fun u => is_white_space u = true) ws2)
  /\ p <> []
  /\ head p <> Some 35
  /\ trim p = p
  /\ Forall (fun u => u <> 10) p.
Proof.
  unfold parse_gitignore. rewrite elem_of_list_to_set, list_elem_of_In.
  rewrite filter_In, in_map_iff.
  intros [(line & <- & Hline) Hpat]. apply list_elem_of_In in Hline.
  destruct (trim_split line) as (ws1 & ws2 & Hsplit & Hws1 & Hws2).
  split; [| split; [| split; [| split]]].
  - now exists line, ws1, ws2.
  - now destruct (trim line).
  - destruct (trim line) as [| u rest]; [discriminate |].
    cbn in Hpat |- *. intros [= ->]. discriminate.
  - apply trim_idempotent.
  - pose proof (split_lines_no_newline _ _ Hline) as Hnl.
    rewrite Hsplit in Hnl.
    apply Forall_app in Hnl as [_ Hnl]. now apply Forall_app in Hnl as [Hnl _].
Qed.

(** The file with a comment, a blank line, an indented comment and two
    patterns, one of them with white space around it. *)
Lemma gitignore_patterns_are_trimmed_lines_witness :
  (exists line ws1 ws2,
     line ∈ split_lines (lit "# build" ++ [10; 10] ++ lit "  dist/ "
                         ++ [13; 10] ++ lit " # x" ++ [10] ++ lit "*.log")
     /\ line = ws1 ++ lit "dist/" ++ ws2
     /\ Forall (fun u => is_white_space u = true) ws1
     /\ Forall (fun u => is_white_space u = true) ws2)
  /\ lit "dist/" <> []
  /\ head (lit "dist/") <> Some 35
  /\ trim (lit "dist/") = lit "dist/"
  /\ Forall (fun u => u <> 10) (lit "dist/").
Proof.
  apply (gitignore_patterns_are_trimmed_lines
           (lit "# build" ++ [10; 10] ++ lit "  dist/ " ++ [13; 10]
            ++ lit " # x" ++ [10] ++ lit "*.log")
           (lit "dist/")).
  vm_compute. reflexivity.
Defined.

(** *** The instance across calls *)

Lemma batch_files_instance_irrelevant from_base64 r this this' owner repo
    decodeContent fmt order files :
  batch_files from_base64 owner repo decodeContent fmt order files r this
  = (outcome (batch_files from_base64 owner repo decodeContent fmt order
                files r this'),
     this,
     events (batch_files from_base64 owner repo decodeContent fmt order files
               r this')).
Proof.
  unfold batch_files. rewrite !run_bind, !start_all_run.
  rewrite !run_bind. unfold lift at 1 3.
  destruct (promise_all order
              (map (fetched from_base64 r owner repo decodeContent) files))
    as [e | contents]; [reflexivity |].
  unfold lift.
  now destruct (formatOutput (omap id contents) fmt).
Qed.

Lemma stream_files_instance_irrelevant from_base64 r this this' owner repo
    decodeContent fmt files :
  stream_files from_base64 owner repo decodeContent fmt files r this
  = (outcome (stream_files from_base64 owner repo decodeContent fmt files
                r this'),
     this,
     events (stream_files from_base64 owner repo decodeContent fmt files
               r this')).
Proof.
  induction files as [| file files IH]; [reflexivity |].
  cbn [stream_files]. rewrite !run_bind, !fetchFileContent_run.
  destruct (fetched from_base64 r owner repo decodeContent file)
    as [e | c]; [reflexivity |].
  rewrite !run_bind.
  destruct c as [c |]; unfold_M.
  - destruct (formatOutput [c] fmt) as [e | chunk]; [reflexivity |].
    rewrite IH.
    now destruct (stream_files from_base64 owner repo decodeContent fmt files
                    r this') as [[res th] ev].
  - rewrite IH.
    now destruct (stream_files from_base64 owner repo decodeContent fmt files
                    r this') as [[res th] ev].
Qed.

Lemma fetchRepoContentStream_instance from_base64 r this owner repo branch
    decodeContent ignoreGitIgnoreFiles fmt filterFn :
  instance_after (fetchRepoContentStream from_base64 owner repo branch
                    decodeContent ignoreGitIgnoreFiles fmt filterFn r this)
  = instance_after (enumerate from_base64 owner repo branch
                      ignoreGitIgnoreFiles filterFn r this).
Proof.
  rewrite fetchRepoContentStream_enumerate, run_bind.
  destruct (enumerate from_base64 owner repo branch ignoreGitIgnoreFiles
              filterFn r this) as [[[e | files] this1] ev1]; [reflexivity |].
  rewrite (stream_files_instance_irrelevant from_base64 r this1 this1).
  reflexivity.
Qed.

Lemma enumerate_instance from_base64 r this owner repo branch
    ignoreGitIgnoreFiles filterFn :
  instance_after (enumerate from_base64 owner repo branch
                    ignoreGitIgnoreFiles filterFn r this) = this
  \/ instance_after (enumerate from_base64 owner repo branch
                       ignoreGitIgnoreFiles filterFn r this)
     = instance_after (load_step from_base64 owner repo ignoreGitIgnoreFiles
                         r this).
Proof.
  destruct (rateLimit r) as [e | q] eqn:Hq.
  { left. unfold enumerate, fetchRateLimit. unfold_M. now rewrite Hq. }
  destruct (Z.eq_dec (remaining q) 0) as [H0 | H0].
  { left. unfold enumerate, fetchRateLimit. unfold_M. now rewrite Hq, H0. }
  right.
  now rewrite (enumerate_run from_base64 r this owner repo branch
                 ignoreGitIgnoreFiles filterFn q Hq H0).
Qed.

(** X10.  A call touches nothing of the instance but the exclusion set: the
    token and the scheduler configuration stay, both modes leave the same
    instance behind, a call with exclusions off leaves the instance exactly
    as it was, and a call with exclusions on either keeps the set or
    replaces it by the patterns of the [.gitignore] it fetched. *)
Theorem calls_change_only_the_exclusions from_base64 r this owner repo branch
    decodeContent ignoreGitIgnoreFiles outputFormat filterFn order :
  let batch := fetchRepoContent from_base64 owner repo branch decodeContent
                 ignoreGitIgnoreFiles outputFormat filterFn order r this in
  let stream := fetchRepoContentStream from_base64 owner repo branch
                  decodeContent ignoreGitIgnoreFiles outputFormat filterFn
                  r this in
  octokit (instance_after batch) = octokit this
  /\ rateLimitManager (instance_after batch) = rateLimitManager this
  /\ instance_after stream = instance_after batch
  /\ (ignoreGitIgnoreFiles = false -> instance_after batch = this)
  /\ (ignoredFiles (instance_after batch) = ignoredFiles this
      \/ exists payload,
           ignoreGitIgnoreFiles = true
           /\ getContent r owner repo (lit ".gitignore") = inr (Some payload)
           /\ ignoredFiles (instance_after batch)
              = parse_gitignore (utf8_decode (from_base64 payload))).
Proof.
  cbn zeta.
  rewrite fetchRepoContent_instance, fetchRepoContentStream_instance.
  destruct (enumerate_instance from_base64 r this owner repo branch
              ignoreGitIgnoreFiles filterFn) as [-> | ->].
  { repeat split; auto. }
  unfold load_step. destruct ignoreGitIgnoreFiles.
  - rewrite loadGitignore_run.
    destruct (getContent r owner repo (lit ".gitignore")) as [e | [p |]];
      unfold instance_after; cbn [fst snd octokit rateLimitManager
                                    ignoredFiles];
      repeat split; auto; try discriminate.
    right. now exists p.
  - repeat split; auto.
Qed.

(** X11.  When the [.gitignore] of the call is fetched, the call does not
    depend on what earlier calls left in the instance: from any two
    instances both modes settle to the same outcome with the same events. *)
Theorem successful_load_forgets_history from_base64 r this this' owner repo
    branch decodeContent outputFormat filterFn order payload :
  getContent r owner repo (lit ".gitignore") = inr (Some payload) ->
  let batch this := fetchRepoContent from_base64 owner repo branch
                      decodeContent true outputFormat filterFn order r this in
  let stream this := fetchRepoContentStream from_base64 owner repo branch
                       decodeContent true outputFormat filterFn r this in
  outcome (batch this) = outcome (batch this')
  /\ events (batch this) = events (batch this')
  /\ outcome (stream this) = outcome (stream this')
  /\ events (stream this) = events (stream this').
Proof.
  intros Hp. cbn zeta.
  rewrite !fetchRepoContent_enumerate, !fetchRepoContentStream_enumerate.
  rewrite !run_bind.
  destruct (rateLimit r) as [e | q] eqn:Hq.
  { unfold enumerate, fetchRateLimit. unfold_M. rewrite Hq.
    repeat split. }
  destruct (Z.eq_dec (remaining q) 0) as [H0 | H0].
  { unfold enumerate, fetchRateLimit. unfold_M. rewrite Hq, H0.
    repeat split. }
  rewrite !(enumerate_run from_base64 r _ owner repo branch true filterFn q
              Hq H0).
  cbn zeta. unfold load_step. rewrite !loadGitignore_run, Hp.
  unfold instance_after, events at 1 3 5 7 9 11 13 15.
  cbn [fst snd].
  rewrite !getRepoFiles_run. cbn [ignoredFiles].
  destruct (getCommit r owner repo branch) as [e | [[| u sha] |]];
    unfold outcome, events; cbn [fst snd]; try (repeat split; fail).
  destruct (getTree r owner repo (u :: sha)) as [e | listing];
    cbn [fst snd]; [repeat split |].
  set (files := List.filter _ listing).
  set (this1 := {| octokit := octokit this;
                   rateLimitManager := rateLimitManager this;
                   ignoredFiles := _ |}).
  set (this1' := {| octokit := octokit this';
                    rateLimitManager := rateLimitManager this';
                    ignoredFiles := _ |}).
  rewrite (batch_files_instance_irrelevant from_base64 r this1 this1').
  rewrite (stream_files_instance_irrelevant from_base64 r this1 this1').
  destruct (batch_files from_base64 owner repo decodeContent outputFormat
              order files r this1') as [[res2 th2] ev2].
  destruct (stream_files from_base64 owner repo decodeContent outputFormat
              files r this1') as [[res3 th3] ev3].
  unfold outcome, events. cbn [fst snd]. repeat split.
Qed.

(** X11 from an instance with exclusions left by another call. *)
Lemma successful_load_forgets_history_witness :
  let r := sample_remote 10 true in
  let stale := {| octokit := lit "token";
                  rateLimitManager := rateLimitManager fresh;
                  ignoredFiles := {[lit "b.txt"; lit "secret/key.pem"]} |} in
  let batch this := fetchRepoContent base64_decode (lit "octo") (lit "demo")
                      (lit "main") false true json None [] r this in
  let stream this := fetchRepoContentStream base64_decode (lit "octo")
                       (lit "demo") (lit "main") false true json None r this in
  outcome (batch stale) = outcome (batch fresh)
  /\ events (batch stale) = events (batch fresh)
  /\ outcome (stream stale) = outcome (stream fresh)
  /\ events (stream stale) = events (stream fresh).
Proof.
  cbv zeta.
  apply (successful_load_forgets_history base64_decode (sample_remote 10 true)
           _ fresh (lit "octo") (lit "demo") (lit "main") false json None []
           (lit "YS50eHQK")).
  reflexivity.
Defined.

(** X12.  Calling again with the same arguments on the instance the call
    left behind, against the same snapshot, gives the same run: outcome,
    events and instance, in both modes. *)
Theorem repeated_call_is_stable from_base64 r this owner repo branch
    decodeContent ignoreGitIgnoreFiles outputFormat filterFn order :
  let batch this := fetchRepoContent from_base64 owner repo branch
                      decodeContent ignoreGitIgnoreFiles outputFormat
                      filterFn order r this in
  let stream this := fetchRepoContentStream from_base64 owner repo branch
                       decodeContent ignoreGitIgnoreFiles outputFormat
                       filterFn r this in
  batch (instance_after (batch this)) = batch this
  /\ stream (instance_after (stream this)) = stream this
  /\ batch (instance_after (stream this)) = batch this.
Proof.
  cbn zeta.
  rewrite fetchRepoContent_instance, fetchRepoContentStream_instance.
  rewrite !fetchRepoContent_enumerate, !fetchRepoContentStream_enumerate.
  rewrite !run_bind, !enumerate_again. repeat split.
Qed.

(** *** The predicate *)

Lemma filter_filter_andb {A} (g h : A -> bool) l :
  List.filter g (List.filter h l) = List.filter (fun x => h x && g x) l.
Proof.
  induction l as [| a l IH]; [reflexivity |].
  cbn [List.filter]. destruct (h a); cbn [andb List.filter]; [| exact IH].
  destruct (g a); now rewrite IH.
Qed.

Lemma keep_item_predicate f ignored listing :
  List.filter (keep_item (Some f) ignored) listing
  = List.filter (fun item => f (item_path item))
      (List.filter (keep_item None ignored) listing).
Proof.
  rewrite filter_filter_andb. apply List.filter_ext. intros item.
  unfold keep_item.
  destruct (bool_decide (item_type item = lit "blob"));
    destruct (bool_decide (item_path item ∈ ignored));
    destruct (f (item_path item)); reflexivity.
Qed.

Lemma present_file_predicate from_base64 r owner repo f files :
  omap (present_file from_base64 r owner repo)
    (List.filter (fun item => f (item_path item)) files)
  = List.filter (fun file => f (path file))
      (omap (present_file from_base64 r owner repo) files).
Proof.
  induction files as [| item files IH]; [reflexivity |].
  cbn [List.filter omap list_omap]. unfold present_file at 2.
  destruct (f (item_path item)) eqn:Hf.
  - cbn [omap list_omap]. unfold present_file at 1.
    destruct (getContent r owner repo (item_path item)) as [e | [p |]];
      cbn [List.filter path]; rewrite ?Hf; now rewrite IH.
  - destruct (getContent r owner repo (item_path item)) as [e | [p |]];
      cbn [List.filter path]; rewrite ?Hf; exact IH.
Qed.

Lemma fulfilled_gives_content from_base64 r owner repo decodeContent files vs :
  map (fetched from_base64 r owner repo decodeContent) files = map inr vs ->
  forall item, item ∈ files ->
    exists c, getContent r owner repo (item_path item) = inr c.
Proof.
  revert vs. induction files as [| file files IH]; intros vs Hvs item Hin.
  - inversion Hin.
  - destruct vs as [| v vs]; [discriminate |].
    cbn [map] in Hvs. injection Hvs as Hv Hvs.
    apply elem_of_cons in Hin as [-> | Hin]; [| now apply (IH vs)].
    rewrite fetched_cases in Hv.
    destruct (getContent r owner repo (item_path file)) as [e | c];
      [discriminate | now exists c].
Qed.

(** X13.  The predicate only narrows the result: when the call without a
    predicate returns a [json] collection, the call with predicate [f]
    returns the files of that collection whose path satisfies [f], in the
    same order, whatever the order in which its fetches settle. *)
Theorem predicate_narrows_the_result from_base64 r this owner repo branch
    decodeContent ignoreGitIgnoreFiles f order order' out :
  outcome (fetchRepoContent from_base64 owner repo branch decodeContent
             ignoreGitIgnoreFiles json None order r this)
  = inr (OJson out) ->
  outcome (fetchRepoContent from_base64 owner repo branch decodeContent
             ignoreGitIgnoreFiles json (Some f) order' r this)
  = inr (OJson (List.filter (fun file => f (path file)) out)).
Proof.
  intros Hout.
  destruct (rateLimit r) as [e | q] eqn:Hq.
  { exfalso. revert Hout. unfold fetchRepoContent, fetchRateLimit, outcome.
    unfold_M. now rewrite Hq. }
  destruct (Z.eq_dec (remaining q) 0) as [H0 | H0].
  { exfalso. revert Hout. unfold fetchRepoContent, fetchRateLimit, outcome.
    unfold_M. now rewrite Hq, H0. }
  assert (Hlist : exists sha listing,
            sha <> [] /\ getCommit r owner repo branch = inr (Some sha)
            /\ getTree r owner repo sha = inr listing).
  { revert Hout. rewrite fetchRepoContent_enumerate, run_bind.
    rewrite (enumerate_run from_base64 r this owner repo branch
               ignoreGitIgnoreFiles None q Hq H0).
    cbn zeta. rewrite getRepoFiles_run.
    destruct (getCommit r owner repo branch) as [e | [[| u sha] |]] eqn:Hc;
      try (unfold outcome; cbn [fst]; discriminate).
    destruct (getTree r owner repo (u :: sha)) as [e | listing] eqn:Ht;
      [unfold outcome; cbn [fst]; discriminate |].
    intros _. exists (u :: sha), listing.
    split; [discriminate | split; [reflexivity | exact Ht]]. }
  destruct Hlist as (sha & listing & Hsha & Hc & Ht).
  destruct (top_level_after_enumeration from_base64 r this owner repo branch
              decodeContent ignoreGitIgnoreFiles json None order q sha
              listing Hq H0 Hc Hsha Ht) as [Hb _].
  destruct (top_level_after_enumeration from_base64 r this owner repo branch
              decodeContent ignoreGitIgnoreFiles json (Some f) order' q sha
              listing Hq H0 Hc Hsha Ht) as [Hbf _].
  cbn zeta in Hb, Hbf. rewrite Hb in Hout. rewrite Hbf. clear Hb Hbf.
  set (this1 := instance_after
                  (load_step from_base64 owner repo ignoreGitIgnoreFiles
                     r this)) in *.
  rewrite keep_item_predicate.
  set (files := List.filter (keep_item None (ignoredFiles this1)) listing)
    in *.
  destruct (fulfilled_or_rejected
              (map (fetched from_base64 r owner repo decodeContent) files))
    as [[vs Hvs] | [e He]].
  2:{ exfalso.
      destruct (batch_files_rejected from_base64 r this1 owner repo
                  decodeContent json order files e He) as (e1 & Hrej & _).
      rewrite Hrej in Hout. unfold outcome in Hout. cbn [fst] in Hout.
      discriminate. }
  pose proof (fulfilled_gives_content from_base64 r owner repo decodeContent
                files vs Hvs) as Hall.
  rewrite (batch_files_fulfilled from_base64 r this1 owner repo decodeContent
             json order files _
             (fetched_all_settled from_base64 r owner repo decodeContent
                files Hall)) in Hout.
  unfold outcome in Hout. cbn [fst formatOutput] in Hout.
  rewrite omap_id_map in Hout. injection Hout as <-.
  assert (Hallf : forall item,
            item ∈ List.filter (fun item => f (item_path item)) files ->
            exists c, getContent r owner repo (item_path item) = inr c).
  { intros item Hin. apply Hall.
    apply list_elem_of_In, filter_In in Hin as [Hin _].
    now apply list_elem_of_In. }
  rewrite (batch_files_fulfilled from_base64 r this1 owner repo decodeContent
             json order' _ _
             (fetched_all_settled from_base64 r owner repo decodeContent
                _ Hallf)).
  unfold outcome. cbn [fst formatOutput].
  now rewrite omap_id_map, present_file_predicate.
Qed.

(** Only the paths under [secret/] of the sample repository. *)
Lemma predicate_narrows_the_result_witness :
  outcome (fetchRepoContent base64_decode (lit "octo") (lit "demo")
             (lit "main") false true json
             (Some (fun p => bool_decide (take 7 p = lit "secret/")))
             [1; 0]%nat (sample_remote 10 true) fresh)
  = inr (OJson (List.filter
                  (fun file => bool_decide (take 7 (path file) = lit "secret/"))
                  [file_b; file_key])).
Proof.
  apply (predicate_narrows_the_result base64_decode (sample_remote 10 true)
           fresh (lit "octo") (lit "demo") (lit "main") false true
           (fun p => bool_decide (take 7 p = lit "secret/")) [] [1; 0]%nat
           [file_b; file_key]).
  vm_compute. reflexivity.
Defined.

(** *** Contents and the fallback, run *)

(** X14 on a payload that is not UTF-8: the bytes FF 41 C0. *)
Lemma fetched_content_well_formed_witness :
  well_formed (content {| path := lit "raw.bin";
                          content := [0xFFFD; 0x41; 0xFFFD] |}) = true.
Proof.
  apply (fetched_content_well_formed base64_decode
           {| rateLimit := inr (quota_left 10);
              getCommit := fun _ _ _ => inr None;
              getTree := fun _ _ _ => inr [];
              getContent := fun _ _ _ => inr (Some (lit "/0HA")) |}
           fresh (lit "octo") (lit "demo") (blob "raw.bin") false).
  vm_compute. reflexivity.
Defined.

(** X15 on the sample repository without a [.gitignore]. *)
Lemma failed_load_on_empty_instance_witness :
  outcome (fetchRepoContent base64_decode (lit "octo") (lit "other")
             (lit "main") false true json None [] (sample_remote 10 false)
             fresh)
  = outcome (fetchRepoContent base64_decode (lit "octo") (lit "other")
               (lit "main") false false json None [] (sample_remote 10 false)
               fresh)
  /\ instance_after (fetchRepoContent base64_decode (lit "octo")
                       (lit "other") (lit "main") false true json None []
                       (sample_remote 10 false) fresh)
     = fresh.
Proof.
  apply (failed_load_on_empty_instance base64_decode (sample_remote 10 false)
           fresh (lit "octo") (lit "other") (lit "main") false json None []).
  intros [payload Hp]. vm_compute in Hp. discriminate Hp.
Defined.

(** *** What a call never fetches and never returns *)

(** X16.  A file whose bytes are the UTF-8 encoding of a well-formed text
    comes back as that text, with or without [decodeContent]. *)
Theorem text_content_round_trips from_base64 r this owner repo file
    decodeContent payload text :
  getContent r owner repo (item_path file) = inr (Some payload) ->
  from_base64 payload = utf8_encode text ->
  well_formed text = true ->
  outcome (fetchFileContent from_base64 owner repo file decodeContent r this)
  = inr (Some {| path := item_path file; content := text |}).
Proof.
  intros Hp Hbytes Hwf. rewrite fetchFileContent_run.
  unfold outcome. cbn [fst]. rewrite fetched_cases, Hp, Hbytes.
  now rewrite utf8_decode_encode.
Qed.

(** The payload [w6kg8J+YgA==] is the UTF-8 encoding of the text made of
    U+00E9, a space and U+1F600 (a surrogate pair). *)
Lemma text_content_round_trips_witness :
  outcome (fetchFileContent base64_decode (lit "octo") (lit "demo")
             (blob "notes.txt") true
             {| rateLimit := inr (quota_left 10);
                getCommit := fun _ _ _ => inr None;
                getTree := fun _ _ _ => inr [];
                getContent := fun _ _ _ => inr (Some (lit "w6kg8J+YgA==")) |}
             fresh)
  = inr (Some {| path := item_path (blob "notes.txt");
                 content := [0xE9; 0x20; 0xD83D; 0xDE00] |}).
Proof.
  apply (text_content_round_trips base64_decode
           {| rateLimit := inr (quota_left 10);
              getCommit := fun _ _ _ => inr None;
              getTree := fun _ _ _ => inr [];
              getContent := fun _ _ _ => inr (Some (lit "w6kg8J+YgA==")) |}
           fresh (lit "octo") (lit "demo") (blob "notes.txt") true
           (lit "w6kg8J+YgA==") [0xE9; 0x20; 0xD83D; 0xDE00]);
    vm_compute; reflexivity.
Defined.





(** X18.  Content is only ever requested for blobs of the listing that the
    filter keeps: of the requests a batch call issues once the listing has
    arrived, every content request other than the load of [.gitignore] is
    for the path of a listing entry of type [blob] that passes the
    predicate and is not in the exclusion set; directories are never
    fetched. *)
Theorem only_kept_blobs_are_fetched from_base64 r this owner repo branch
    decodeContent ignoreGitIgnoreFiles outputFormat filterFn order q sha
    listing file :
  rateLimit r = inr q ->
  remaining q <> 0 ->
  getCommit r owner repo branch = inr (Some sha) ->
  sha <> [] ->
  getTree r owner repo sha = inr listing ->
  let batch := fetchRepoContent from_base64 owner repo branch decodeContent
                 ignoreGitIgnoreFiles outputFormat filterFn order r this in
  repos_getContent owner repo file ∈ calls (events batch) ->
  (ignoreGitIgnoreFiles = true /\ file = lit ".gitignore")
  \/ exists item,
       item ∈ listing
       /\ item_path item = file
       /\ item_type item = lit "blob"
       /\ match filterFn with
          | None => True
          | Some f => f file = true
          end
       /\ file ∉ ignoredFiles (instance_after batch).
Proof.
  intros Hq Hrem Hc Hsha Ht batch.
  destruct (top_level_after_enumeration from_base64 r this owner repo branch
              decodeContent ignoreGitIgnoreFiles outputFormat filterFn order
              q sha listing Hq Hrem Hc Hsha Ht) as [Hb _].
  cbn zeta in Hb. fold batch in Hb.
  set (load := load_step from_base64 owner repo ignoreGitIgnoreFiles r this)
    in *.
  set (this1 := instance_after load) in *.
  set (files := List.filter (keep_item filterFn (ignoredFiles this1)) listing)
    in *.
  pose proof (batch_files_frame from_base64 r this1 owner repo decodeContent
                outputFormat order files) as Hframe.
  pose proof (batch_files_events from_base64 r this1 owner repo decodeContent
                outputFormat order files) as Hev.
  destruct (batch_files from_base64 owner repo decodeContent outputFormat
              order files r this1) as [[res2 this2] ev2].
  unfold instance_after at 1 in Hframe. unfold events at 1 in Hev.
  cbn [fst snd] in Hframe, Hev. subst this2 ev2.
  rewrite Hb. unfold events at 1, instance_after at 1. cbn [fst snd].
  rewrite calls_app, calls_content_calls.
  change (calls (Issued rateLimit_get :: events load
                 ++ [Issued (repos_getCommit owner repo branch);
                     Issued (git_getTree owner repo sha)]))
    with (rateLimit_get
          :: calls (events load
                    ++ [Issued (repos_getCommit owner repo branch);
                        Issued (git_getTree owner repo sha)])).
  rewrite calls_app. unfold load at 1. rewrite load_step_calls.
  intros Hin. apply elem_of_app in Hin as [Hin | Hin].
  - left. apply elem_of_cons in Hin as [Hin | Hin]; [discriminate |].
    apply elem_of_app in Hin as [Hin | Hin].
    + destruct ignoreGitIgnoreFiles; [| inversion Hin].
      apply list_elem_of_singleton in Hin. now injection Hin as ->.
    + apply elem_of_cons in Hin as [Hin | Hin]; [discriminate |].
      apply list_elem_of_singleton in Hin. discriminate.
  - right. apply list_elem_of_fmap in Hin as (item & Hcall & Hitem).
    injection Hcall as ->. exists item.
    apply list_elem_of_In, filter_In in Hitem as [Hitem Hkeep].
    unfold keep_item in Hkeep. rewrite !andb_true_iff in Hkeep.
    destruct Hkeep as [[Hblob Hpred] Hnot].
    apply bool_decide_eq_true in Hblob. apply negb_true_iff in Hnot.
    apply bool_decide_eq_false in Hnot.
    split; [now apply list_elem_of_In |].
    split; [reflexivity |]. split; [exact Hblob |].
    split; [now destruct filterFn | exact Hnot].
Qed.

(** X18 on the request for b.txt. *)
Lemma only_kept_blobs_are_fetched_witness :
  (true = true /\ lit "b.txt" = lit ".gitignore")
  \/ exists item,
       item ∈ sample_tree
       /\ item_path item = lit "b.txt"
       /\ item_type item = lit "blob"
       /\ True
       /\ lit "b.txt"
          ∉ ignoredFiles
              (instance_after
                 (fetchRepoContent base64_decode (lit "octo") (lit "demo")
                    (lit "main") false true json None []
                    (sample_remote 10 true) fresh)).
Proof.
  apply (only_kept_blobs_are_fetched base64_decode (sample_remote 10 true)
           fresh (lit "octo") (lit "demo") (lit "main") false true json None
           [] (quota_left 10) (lit "4b825dc") sample_tree (lit "b.txt"));
    try reflexivity; try discriminate.
  vm_compute. do 4 right. left.
Defined.

End LoaderFacts.
